(** * Mortgage calculation engine (src/routes/mortgageRoutes.js)

    The three handlers of the mortgage router, [POST /calculate],
    [POST /affordability] and [POST /compare], are pure numerical
    computations over JavaScript numbers.  They are embedded here once,
    over an abstract interface of the arithmetic the source uses, and the
    interface is then interpreted twice:

    - as IEEE 754 binary64 (Rocq's primitive floats), which is what a
      JavaScript engine computes, with [Math.pow] left as a parameter;
    - as the real numbers, which is the arithmetic the formulas are an
      approximation of. *)

From Stdlib Require Import ZArith QArith List Bool String Lia Lra.
From Stdlib Require Import Sorting.Sorted.
From Stdlib Require Import Floats.
From Stdlib Require Import Reals.
Import ListNotations.

(** ** The arithmetic of JavaScript numbers, as an interface *)

Declare Scope js_scope.
Delimit Scope js_scope with js.

Module Js.

Class JsNumber (num : Type) : Type := {
  (** the binary operators [+], [-], [*], [/] *)
  add : num -> num -> num;
  sub : num -> num -> num;
  mul : num -> num -> num;
  div : num -> num -> num;
  (** strict equality [===] on numbers *)
  strict_eq : num -> num -> bool;
  (** [Math.max], [Math.min] at two arguments *)
  Math_max : num -> num -> num;
  Math_min : num -> num -> num;
  (** [Math.pow] at an integer-valued exponent (the engine only ever passes
      [loanTermMonths]) *)
  Math_pow : num -> Z -> num;
  (** an integer-valued number, and a decimal literal [n/d] *)
  of_Z : Z -> num;
  of_Q : Q -> num
}.

End Js.
Export Js.

Infix "+" := add : js_scope.
Infix "-" := sub : js_scope.
Infix "*" := mul : js_scope.
Infix "/" := div : js_scope.
Infix "===" := strict_eq (at level 70, no associativity) : js_scope.

(** What a handler sends: [res.json({success: true, results})] from the
    [try] block, or the 500 answer of the [catch] block. *)
Inductive Response (A : Type) : Type :=
| Success (results : A)
| ServerError.
Arguments Success {A} results.
Arguments ServerError {A}.

(** ** [POST /mortgage/calculate] *)

Module Calculate.
Section Engine.

Context {num : Type} {ops : JsNumber num}.

Local Open Scope js_scope.

(** One element of [amortizationSchedule] (source lines 165-171).  [month]
    is the loop counter, an integer-valued number. *)
Record AmortizationRow : Type := {
  month : Z;
  payment : num;
  principalPayment : num;
  interestPayment : num;
  remainingBalance : num
}.

(** The [results] object of [/calculate] (source lines 177-182). *)
Record PaymentResult : Type := {
  monthlyPayment : num;
  totalPayment : num;
  totalInterest : num;
  amortizationSchedule : list AmortizationRow
}.

(** The state the [for] loop of [/calculate] carries from one iteration to
    the next: the local [remainingBalance] (never clamped) and the array
    [amortizationSchedule]. *)
Record LoopState : Type := {
  balance : num;
  schedule : list AmortizationRow
}.

(** The retention test of source line 164. *)
Definition retained (loanTermMonths m : Z) : bool :=
  (m <=? 12)%Z || (m =? loanTermMonths)%Z || (m mod 12 =? 0)%Z.

(** One iteration of the loop (source lines 159-172). *)
Definition loop_body (monthlyPayment monthlyInterestRate : num)
    (loanTermMonths : Z) (st : LoopState) (m : Z) : LoopState :=
  let interestPayment := balance st * monthlyInterestRate in
  let principalPayment := monthlyPayment - interestPayment in
  let remainingBalance := balance st - principalPayment in
  {| balance := remainingBalance;
     schedule :=
       if retained loanTermMonths m
       then schedule st ++
            [ {| month := m;
                 payment := monthlyPayment;
                 principalPayment := principalPayment;
                 interestPayment := interestPayment;
                 remainingBalance := Math_max (of_Z 0) remainingBalance |} ]
       else schedule st |}.

(** The values [month] takes: [1, 2, ..., loanTermMonths]. *)
Definition months (loanTermMonths : Z) : list Z :=
  map Z.of_nat (seq 1 (Z.to_nat loanTermMonths)).

(** [for (let month = 1; month <= loanTermMonths; month++) { ... }] *)
Definition amortization_loop (monthlyPayment monthlyInterestRate : num)
    (loanTermMonths : Z) (principal : num) : LoopState :=
  fold_left (loop_body monthlyPayment monthlyInterestRate loanTermMonths)
            (months loanTermMonths)
            {| balance := principal; schedule := [] |}.

(** The body of the [/calculate] handler up to [res.json] (source lines
    129-182). *)
Definition calculate_results (principal interestRate : num) (loanTerm : Z)
  : PaymentResult :=
  let monthlyInterestRate := interestRate / of_Z 100 / of_Z 12 in
  let loanTermMonths := (loanTerm * 12)%Z in
  let '(monthlyPayment, totalPayment, totalInterest) :=
    if monthlyInterestRate === of_Z 0 then
      (principal / of_Z loanTermMonths, principal, of_Z 0)
    else
      let monthlyPayment :=
        principal *
        (monthlyInterestRate * Math_pow (of_Z 1 + monthlyInterestRate) loanTermMonths) /
        (Math_pow (of_Z 1 + monthlyInterestRate) loanTermMonths - of_Z 1) in
      let totalPayment := monthlyPayment * of_Z loanTermMonths in
      (monthlyPayment, totalPayment, totalPayment - principal) in
  {| monthlyPayment := monthlyPayment;
     totalPayment := totalPayment;
     totalInterest := totalInterest;
     amortizationSchedule :=
       schedule (amortization_loop monthlyPayment monthlyInterestRate
                                   loanTermMonths principal) |}.

(** [POST /mortgage/calculate].  Nothing in the [try] block throws, so the
    [catch] block is never entered. *)
Definition calculate (principal interestRate : num) (loanTerm : Z)
  : Response PaymentResult :=
  Success (calculate_results principal interestRate loanTerm).

(** *** The month walk, as the specification words it

    The running balance after [m] payments, by the recurrence
    [b_0 = principal], [b_m = b_(m-1) - (monthlyPayment - b_(m-1) x monthlyRate)],
    in which no clamping takes part. *)
Fixpoint unclamped_balance (monthlyPayment monthlyInterestRate principal : num)
    (m : nat) : num :=
  match m with
  | O => principal
  | S k =>
      let b := unclamped_balance monthlyPayment monthlyInterestRate principal k in
      b - (monthlyPayment - b * monthlyInterestRate)
  end.

(** The interest and principal portions of month [m >= 1] of the walk,
    retained or not. *)
Definition interest_of_month (monthlyPayment monthlyInterestRate principal : num)
    (m : nat) : num :=
  unclamped_balance monthlyPayment monthlyInterestRate principal (Nat.pred m)
  * monthlyInterestRate.

Definition principal_of_month (monthlyPayment monthlyInterestRate principal : num)
    (m : nat) : num :=
  monthlyPayment
  - interest_of_month monthlyPayment monthlyInterestRate principal m.

(** The row the walk reports for month [m], when it is retained. *)
Definition reported_row (monthlyPayment monthlyInterestRate principal : num)
    (m : nat) : AmortizationRow :=
  {| month := Z.of_nat m;
     payment := monthlyPayment;
     principalPayment :=
       principal_of_month monthlyPayment monthlyInterestRate principal m;
     interestPayment :=
       interest_of_month monthlyPayment monthlyInterestRate principal m;
     remainingBalance :=
       Math_max (of_Z 0)
         (unclamped_balance monthlyPayment monthlyInterestRate principal m) |}.

(** The months the retention policy keeps, in increasing order. *)
Definition retained_months (loanTermMonths : Z) : list nat :=
  filter (fun m => retained loanTermMonths (Z.of_nat m))
         (seq 1 (Z.to_nat loanTermMonths)).

End Engine.
End Calculate.

(** ** [POST /mortgage/affordability] *)

Module Affordability.
Section Engine.

Context {num : Type} {ops : JsNumber num}.

Local Open Scope js_scope.

(** The fields the handler reads from [req.body] (source lines 196-204). *)
Record AffordabilityInputs : Type := {
  annualIncome : num;
  monthlyDebts : num;
  downPayment : num;
  interestRate : num;
  loanTerm : Z;
  propertyTaxRate : num;
  insuranceRate : num
}.

Record PaymentBreakdown : Type := {
  principalAndInterest : num;
  taxes : num;
  insurance : num
}.

(** The [results] object of [/affordability] (source lines 265-274). *)
Record AffordabilityResult : Type := {
  maxHomePrice : num;
  monthlyPayment : num;
  paymentBreakdown : PaymentBreakdown;
  debtToIncomeRatio : num
}.

Variable body : AffordabilityInputs.

(** Source line 207. *)
Definition monthlyIncome : num := annualIncome body / of_Z 12.

(** Source lines 210-219. *)
Definition availableForHousing : num :=
  let maxHousingPayment := monthlyIncome * of_Q (28 # 100) in
  let maxTotalDebtPayment := monthlyIncome * of_Q (36 # 100) in
  Math_min maxHousingPayment (maxTotalDebtPayment - monthlyDebts body).

(** Source lines 222 and 225. *)
Definition monthlyInterestRate : num := interestRate body / of_Z 100 / of_Z 12.
Definition loanTermMonths : Z := (loanTerm body * 12)%Z.

(** Source lines 228-239. *)
Definition maxLoanAmount : num :=
  if monthlyInterestRate === of_Z 0 then
    availableForHousing * of_Z loanTermMonths
  else
    availableForHousing /
    ((monthlyInterestRate * Math_pow (of_Z 1 + monthlyInterestRate) loanTermMonths) /
     (Math_pow (of_Z 1 + monthlyInterestRate) loanTermMonths - of_Z 1) +
     (propertyTaxRate body / of_Z 100 / of_Z 12) +
     (insuranceRate body / of_Z 100 / of_Z 12)).

(** The body of the handler up to [res.json] (source lines 242-274). *)
Definition affordability_results : AffordabilityResult :=
  let maxHomePrice := maxLoanAmount + downPayment body in
  let loanAmount := maxHomePrice - downPayment body in
  let principalAndInterest :=
    if monthlyInterestRate === of_Z 0 then
      loanAmount / of_Z loanTermMonths
    else
      loanAmount *
      (monthlyInterestRate * Math_pow (of_Z 1 + monthlyInterestRate) loanTermMonths) /
      (Math_pow (of_Z 1 + monthlyInterestRate) loanTermMonths - of_Z 1) in
  let monthlyTaxes := (maxHomePrice * propertyTaxRate body / of_Z 100) / of_Z 12 in
  let monthlyInsurance := (maxHomePrice * insuranceRate body / of_Z 100) / of_Z 12 in
  let totalMonthlyPayment := principalAndInterest + monthlyTaxes + monthlyInsurance in
  let dti := ((totalMonthlyPayment + monthlyDebts body) / monthlyIncome) * of_Z 100 in
  {| maxHomePrice := maxHomePrice;
     monthlyPayment := totalMonthlyPayment;
     paymentBreakdown :=
       {| principalAndInterest := principalAndInterest;
          taxes := monthlyTaxes;
          insurance := monthlyInsurance |};
     debtToIncomeRatio := dti |}.

(** [POST /mortgage/affordability]: as in [/calculate], no operation of the
    [try] block throws. *)
Definition affordability : Response AffordabilityResult :=
  Success affordability_results.

End Engine.
End Affordability.

(** ** [POST /mortgage/compare] *)

Module Compare.
Section Engine.

Context {num : Type} {ops : JsNumber num}.

Local Open Scope js_scope.

(** One element of [loanOptions] (source line 291). *)
Record LoanOption : Type := {
  amount : num;
  interestRate : num;
  term : Z;
  type : string;
  points : num;
  fees : num
}.

(** One element of [results]: [{...option, monthlyPayment, totalInterest,
    totalCost}] (source lines 316-321). *)
Record LoanComparison : Type := {
  loanOption : LoanOption;
  monthlyPayment : num;
  totalInterest : num;
  totalCost : num
}.

(** The callback of [loanOptions.map] (source lines 290-322). *)
Definition compare_option (option : LoanOption) : LoanComparison :=
  let pointsCost := (points option / of_Z 100) * amount option in
  let monthlyInterestRate := interestRate option / of_Z 100 / of_Z 12 in
  let loanTermMonths := (term option * 12)%Z in
  let monthlyPayment :=
    if monthlyInterestRate === of_Z 0 then
      amount option / of_Z loanTermMonths
    else
      amount option *
      (monthlyInterestRate * Math_pow (of_Z 1 + monthlyInterestRate) loanTermMonths) /
      (Math_pow (of_Z 1 + monthlyInterestRate) loanTermMonths - of_Z 1) in
  let totalPayments := monthlyPayment * of_Z loanTermMonths in
  let totalInterest := totalPayments - amount option in
  let totalCost := amount option + totalInterest + pointsCost + fees option in
  {| loanOption := option;
     monthlyPayment := monthlyPayment;
     totalInterest := totalInterest;
     totalCost := totalCost |}.

(** [POST /mortgage/compare]. *)
Definition compare (loanOptions : list LoanOption)
  : Response (list LoanComparison) :=
  Success (map compare_option loanOptions).

End Engine.
End Compare.

(** ** First interpretation: IEEE 754 binary64 *)

Module Float64.

Local Open Scope float_scope.

(** The number an integer denotes: the nearest binary64 value (exact up to
    2^53). *)
Definition of_Z (z : Z) : float :=
  SF2Prim (binary_normalize prec emax z 0 false).

(** A decimal literal [n/d] with [n] and [d] below 2^53 denotes the binary64
    value nearest to the quotient, which is what the correctly rounded
    division of [n] by [d] returns. *)
Definition of_Q (q : Q) : float :=
  of_Z (Qnum q) / of_Z (Zpos (Qden q)).

Definition is_neg_zero (x : float) : bool := is_zero x && get_sign x.
Definition is_pos_zero (x : float) : bool := is_zero x && negb (get_sign x).

(** [Math.max(x, y)] (ECMAScript 21.3.2.24): NaN if either argument is NaN,
    [+0] is larger than [-0]. *)
Definition Math_max (x y : float) : float :=
  if is_nan x || is_nan y then nan
  else if is_neg_zero x && is_pos_zero y then y
  else if x <? y then y else x.

(** [Math.min(x, y)] (ECMAScript 21.3.2.25). *)
Definition Math_min (x y : float) : float :=
  if is_nan x || is_nan y then nan
  else if is_pos_zero x && is_neg_zero y then y
  else if y <? x then y else x.

(** ECMAScript leaves [Math.pow] implementation-approximated, so the
    interpretation takes it as a parameter. *)
Definition ops (pow : float -> Z -> float) : JsNumber float :=
  Build_JsNumber float
    PrimFloat.add PrimFloat.sub PrimFloat.mul PrimFloat.div
    PrimFloat.eqb Math_max Math_min pow of_Z of_Q.

(** A concrete [Math.pow] for integer exponents: binary exponentiation in
    binary64.  It returns the exact power whenever the products it forms
    are representable (as for [1^n] and [1.5^12]) and Infinity when the
    power overflows (as for [2^1200]); otherwise it carries the rounding of
    its products (112 units in the last place at [1.005^360]). *)
Fixpoint pow_pos (x : float) (p : positive) : float :=
  match p with
  | xH => x
  | xO p' => let y := pow_pos x p' in y * y
  | xI p' => let y := pow_pos x p' in x * (y * y)
  end.

Definition pow_ref (x : float) (n : Z) : float :=
  match n with
  | Z0 => 1
  | Zpos p => pow_pos x p
  | Zneg p => 1 / pow_pos x p
  end.

(** [w] is within [k] units in the last place of [c]: it is [c] or one of
    the [k] binary64 numbers next to it on either side. *)
Fixpoint ulps_above (k : nat) (c : float) : list float :=
  match k with
  | O => []
  | S k' => next_up c :: ulps_above k' (next_up c)
  end.

Fixpoint ulps_below (k : nat) (c : float) : list float :=
  match k with
  | O => []
  | S k' => next_down c :: ulps_below k' (next_down c)
  end.

Definition ulp_ball (k : nat) (c : float) : list float :=
  c :: ulps_above k c ++ ulps_below k c.

Definition within_ulps (k : nat) (c w : float) : Prop := In w (ulp_ball k c).

(** [x] and [y] agree within the absolute tolerance [tol]:
    [Math.abs(x - y) <= tol]. *)
Definition within (tol x y : float) : bool := abs (x - y) <=? tol.

End Float64.


(** ** Second interpretation: exact real arithmetic *)

Module Exact.

Local Open Scope R_scope.

Definition strict_eq (x y : R) : bool :=
  if Req_dec_T x y then true else false.

Definition ops : JsNumber R :=
  Build_JsNumber R Rplus Rminus Rmult Rdiv strict_eq Rmax Rmin powerRZ IZR Q2R.

End Exact.

(** ** Inputs and checks the properties are stated with *)

Module Scenarios.

(** The tolerance of the specification on one row of the schedule:
    [principalPayment + interestPayment] within 1e-6 of [monthlyPayment]. *)
Definition split_within_tolerance (monthlyPayment : float)
    (row : Calculate.AmortizationRow (num := float)) : bool :=
  Float64.within (Float64.of_Q (1 # 1000000))
    (Calculate.principalPayment row + Calculate.interestPayment row)%float
    monthlyPayment.

(** The powers the two worked examples of the specification need,
    [q^360] for the binary64 numbers [q = 1 + 6/100/12] and
    [q = 1 + 5/100/12]: the binary64 numbers nearest to them are
    6.0225752122629865 and 4.4677443140061088. *)
Definition growth_6_percent_30_years : float := 0x1.8171df4d97aa9p+2.
Definition growth_5_percent_30_years : float := 0x1.1def85d8e2f4dp+2.

(** The payment of the annuity branch at 200000, 6%, 30 years, as a
    function of the value [w] that [Math.pow] returns. *)
Definition reference_payment_of (w : float) : float :=
  (200000 * (6 / 100 / 12 * w) / (w - 1))%float.

Section AffordabilityInputs.
Import Affordability.

(** The example of the specification: income 90000, debts 300, down payment
    20000, 5 percent over 30 years, tax 1.2 percent, insurance 0.5
    percent. *)
Definition example_body : AffordabilityInputs (num := float) :=
  {| annualIncome := 90000%float;
     monthlyDebts := 300%float;
     downPayment := 20000%float;
     interestRate := 5%float;
     loanTerm := 30%Z;
     propertyTaxRate := Float64.of_Q (12 # 10);
     insuranceRate := Float64.of_Q (5 # 10) |}.

(** The ratio [/affordability] returns for it, as a function of the value
    [w] that [Math.pow] returns. *)
Definition example_ratio_of (w : float) : float :=
  debtToIncomeRatio
    (affordability_results (ops := Float64.ops (fun _ _ => w)) example_body).

Definition example_body_exact : AffordabilityInputs (num := R) :=
  {| annualIncome := 90000%R;
     monthlyDebts := 300%R;
     downPayment := 20000%R;
     interestRate := 5%R;
     loanTerm := 30%Z;
     propertyTaxRate := 1.2%R;
     insuranceRate := 0.5%R |}.

(** A valid body of [/affordability], as the schema of the route admits
    it. *)
Definition valid_body (body : AffordabilityInputs (num := R)) : Prop :=
  (0 < annualIncome body)%R /\
  (0 <= monthlyDebts body)%R /\
  (0 <= downPayment body)%R /\
  (0 <= interestRate body)%R /\
  (0 < loanTerm body)%Z /\
  (0 <= propertyTaxRate body)%R /\
  (0 <= insuranceRate body)%R.

(** The debts exceed 36 percent of the monthly income. *)
Definition over_cap (body : AffordabilityInputs (num := R)) : Prop :=
  (0.36 * (annualIncome body / 12) < monthlyDebts body)%R.

(** Debts of 361 a month on an income of 1000 a month, with a down payment
    of 1e20. *)
Definition absorbing_body : AffordabilityInputs (num := float) :=
  {| annualIncome := 12000%float;
     monthlyDebts := 361%float;
     downPayment := 1e20%float;
     interestRate := 0%float;
     loanTerm := 1%Z;
     propertyTaxRate := 0%float;
     insuranceRate := 0%float |}.

(** A valid body over the cap: income 90000 (cap 2700 a month), debts
    3000. *)
Definition over_cap_body : AffordabilityInputs (num := R) :=
  {| annualIncome := 90000%R;
     monthlyDebts := 3000%R;
     downPayment := 20000%R;
     interestRate := 5%R;
     loanTerm := 30%Z;
     propertyTaxRate := 1.2%R;
     insuranceRate := 0.5%R |}.

End AffordabilityInputs.

Section LoanOptions.
Import Compare.

(** The same loan option with [points] replaced. *)
Definition with_points {num : Type} (option : LoanOption (num := num))
    (p : num) : LoanOption :=
  {| amount := amount option;
     interestRate := interestRate option;
     term := term option;
     type := type option;
     points := p;
     fees := fees option |}.

(** 3 at 0% over one year with fees of 0.1, and 100000 at 0% over one year
    with fees of 1500, both without points. *)
Definition small_option : LoanOption (num := float) :=
  {| amount := 3%float; interestRate := 0%float; term := 1%Z;
     type := EmptyString; points := 0%float;
     fees := Float64.of_Q (1 # 10) |}.

Definition plain_option : LoanOption (num := float) :=
  {| amount := 100000%float; interestRate := 0%float; term := 1%Z;
     type := EmptyString; points := 0%float; fees := 1500%float |}.

End LoanOptions.

End Scenarios.

(** ** Inputs the further properties are stated with *)

Module Inputs.

Section Float64Inputs.
Local Open Scope float_scope.

(** A request of [/affordability] at a rate of zero. *)
Definition zero_rate_body : Affordability.AffordabilityInputs (num := float) :=
  {| Affordability.annualIncome := 90000;
     Affordability.monthlyDebts := 500;
     Affordability.downPayment := 20000;
     Affordability.interestRate := 0;
     Affordability.loanTerm := 30%Z;
     Affordability.propertyTaxRate := 1;
     Affordability.insuranceRate := 1 |}.

End Float64Inputs.

Section ExactInputs.
Local Open Scope R_scope.

(** A loan option the [comparison] schema of the route admits (source lines
    87-117: [amount] positive, [interestRate], [points] and [fees] at least
    0, [term] a positive integer). *)
Definition valid_option (option : Compare.LoanOption (num := R)) : Prop :=
  0 < Compare.amount option /\
  0 <= Compare.interestRate option /\
  (0 < Compare.term option)%Z /\
  0 <= Compare.points option /\
  0 <= Compare.fees option.

(** The debts are within 36 percent of the monthly income. *)
Definition within_cap (body : Affordability.AffordabilityInputs (num := R)) : Prop :=
  Affordability.monthlyDebts body
  <= 0.36 * (Affordability.annualIncome body / 12).

(** The monthly share of the yearly tax and insurance rates, as the handler
    divides them (source lines 232-233 and 246-247): [rate / 100 / 12]. *)
Definition monthly_charges (body : Affordability.AffordabilityInputs (num := R)) : R :=
  Affordability.propertyTaxRate body / 100 / 12
  + Affordability.insuranceRate body / 100 / 12.

(** An option at 6 percent over 30 years with one point and fees. *)
Definition priced_option : Compare.LoanOption (num := R) :=
  {| Compare.amount := 200000; Compare.interestRate := 6; Compare.term := 30%Z;
     Compare.type := EmptyString; Compare.points := 1; Compare.fees := 1500 |}.

(** A request of [/affordability] at a rate of zero. *)
Definition zero_rate_body_exact : Affordability.AffordabilityInputs (num := R) :=
  {| Affordability.annualIncome := 90000;
     Affordability.monthlyDebts := 500;
     Affordability.downPayment := 20000;
     Affordability.interestRate := 0;
     Affordability.loanTerm := 30%Z;
     Affordability.propertyTaxRate := 1.2;
     Affordability.insuranceRate := 0.5 |}.

End ExactInputs.

End Inputs.

(** ** Shapes and totals the further properties are stated with *)

Module Shapes.

(** The anniversaries after the first year: months 24, 36, ..., 12 x years. *)
Definition anniversaries (years : nat) : list nat :=
  map (fun k => 12 * k)%nat (seq 2 (years - 1)).

Section Sums.
Context {num : Type} {ops : JsNumber num}.

(** The sum of [f 1], ..., [f n], added up in month order. *)
Definition sum_over_months (f : nat -> num) (n : nat) : num :=
  fold_left (fun acc m => add acc (f m)) (seq 1 n) (of_Z 0).

End Sums.

End Shapes.

(** ** The [validate] middleware ([middleware/validationMiddleware.js]) *)

From Stdlib Require DecimalString.

(** What the middleware reads of the result of [schema.validate]: the
    [details] of the error, each with a [path] (keys and array indices) and
    a [message]. *)
Module Joi.

Inductive PathSegment : Type :=
| Key (name : string)
| Index (i : N).

Record Detail : Type := {
  path : list PathSegment;
  message : string
}.

End Joi.

Module Validation.

(** A plain object with string keys and string values, as a list of its own
    properties without repeated keys.  The list is read through [get] only;
    the order in which the object is serialised is not modelled. *)
Definition JsObject : Type := list (string * string).

Fixpoint get (o : JsObject) (key : string) : option string :=
  match o with
  | [] => None
  | (k, v) :: rest => if String.eqb k key then Some v else get rest key
  end.

Fixpoint set_own (o : JsObject) (key value : string) : JsObject :=
  match o with
  | [] => [(key, value)]
  | (k, v) :: rest =>
      if String.eqb k key then (k, value) :: rest
      else (k, v) :: set_own rest key value
  end.

(** [o[key] = value] for a string [value] on an object created by [{}]: the
    key [__proto__] reaches the setter of [Object.prototype], which ignores
    a value that is not an object; every other key becomes or stays an own
    property. *)
Definition assign (o : JsObject) (key value : string) : JsObject :=
  if String.eqb key "__proto__" then o else set_own o key value.

(** [String(segment)]: a key is itself, an index is written in decimal. *)
Definition segment_to_string (segment : Joi.PathSegment) : string :=
  match segment with
  | Joi.Key name => name
  | Joi.Index i => DecimalString.NilEmpty.string_of_uint (N.to_uint i)
  end.

(** [detail.path.join('.')] (source line 252). *)
Definition join_path (path : list Joi.PathSegment) : string :=
  String.concat "." (map segment_to_string path).

(** The [forEach] of source lines 251-254, started from [{}]. *)
Definition format_errors (details : list Joi.Detail) : JsObject :=
  fold_left
    (fun errors detail =>
       assign errors (join_path (Joi.path detail)) (Joi.message detail))
    details [].

(** The body of the 400 response (source lines 256-260). *)
Record ErrorBody : Type := {
  success : bool;
  message : string;
  errors : JsObject
}.

Inductive Outcome : Type :=
| Next
| Respond (status : Z) (body : ErrorBody).

Section Middleware.

(** The value of a property of the request, and the [error] of
    [schema.validate] on a value: [None] for [undefined], otherwise the
    [details] of the error.  The [value] that [schema.validate] returns
    beside it is not read by the middleware. *)
Variable Value : Type.
Variable schema : Value -> option (list Joi.Detail).

(** [validate(schema, property)(req, res, next)] (source lines 236-263);
    [req] is read at [property] only. *)
Definition validate (property : string) (req : string -> Value) : Outcome :=
  match schema (req property) with
  | None => Next
  | Some details =>
      Respond 400
        {| success := false;
           message := "Validation failed";
           errors := format_errors details |}
  end.

End Middleware.

(** The message of the last detail whose joined path is [key]. *)
Definition last_message (details : list Joi.Detail) (key : string)
  : option string :=
  option_map Joi.message
    (find (fun detail => String.eqb (join_path (Joi.path detail)) key)
          (rev details)).

End Validation.

(** * Properties *)

(** ** The amortization loop, in any interpretation *)

Module CalculateFacts.
Import Calculate.

Section Generic.

Context {num : Type} {ops : JsNumber num}.

Variables (monthlyPayment monthlyInterestRate principal : num).
Variable loanTermMonths : Z.

Local Abbreviation body := (loop_body monthlyPayment monthlyInterestRate loanTermMonths).
Local Abbreviation bal := (unclamped_balance monthlyPayment monthlyInterestRate principal).
Local Abbreviation row := (reported_row monthlyPayment monthlyInterestRate principal).
Local Abbreviation keep := (fun m : nat => retained loanTermMonths (Z.of_nat m)).

(** Running the loop over the months [a+1 .. a+k], from a state whose balance
    is [b_a], leaves the balance [b_(a+k)] and appends the reported rows of
    the retained months among them. *)
Lemma loop_from (k a : nat) (st : LoopState) :
  balance st = bal a ->
  fold_left body (map Z.of_nat (seq (S a) k)) st =
  {| balance := bal (a + k);
     schedule := schedule st ++ map row (filter keep (seq (S a) k)) |}.
Proof.
  revert a st.
  induction k as [|k IH]; intros a st Hb.
  - cbn [seq map fold_left filter]. rewrite Nat.add_0_r, app_nil_r, <- Hb.
    now destruct st.
  - cbn [seq map fold_left filter].
    rewrite (IH (S a)).
    + f_equal; [f_equal; lia|].
      unfold loop_body at 1. cbn [schedule].
      destruct (retained loanTermMonths (Z.of_nat (S a))).
      * cbn [map]. rewrite <- app_assoc. cbn [app]. do 2 f_equal.
        unfold reported_row, principal_of_month, interest_of_month.
        cbn [Nat.pred unclamped_balance]. now rewrite Hb.
      * reflexivity.
    + unfold loop_body. cbn [balance unclamped_balance]. now rewrite Hb.
Qed.

(** The loop of the handler: its final balance and its schedule. *)
Lemma amortization_loop_spec :
  amortization_loop monthlyPayment monthlyInterestRate loanTermMonths principal =
  {| balance := bal (Z.to_nat loanTermMonths);
     schedule := map row (retained_months loanTermMonths) |}.
Proof.
  unfold amortization_loop, months.
  now rewrite (loop_from (Z.to_nat loanTermMonths) 0).
Qed.

Lemma schedule_spec :
  schedule (amortization_loop monthlyPayment monthlyInterestRate
                              loanTermMonths principal) =
  map row (retained_months loanTermMonths).
Proof. now rewrite amortization_loop_spec. Qed.

End Generic.

(** The schedule of the response is the schedule the loop builds with the
    [monthlyPayment] of the response. *)
Lemma calculate_schedule {num : Type} {ops : JsNumber num}
    (principal interestRate : num) (loanTerm : Z) :
  let res := calculate_results principal interestRate loanTerm in
  amortizationSchedule res =
  map (reported_row (Calculate.monthlyPayment res)
                    (div (div interestRate (of_Z 100)) (of_Z 12)) principal)
      (retained_months (loanTerm * 12)).
Proof.
  unfold calculate_results.
  destruct (strict_eq _ _); cbn [amortizationSchedule Calculate.monthlyPayment].
  - now rewrite amortization_loop_spec.
  - now rewrite amortization_loop_spec.
Qed.

(** *** The retained months *)

Lemma retained_months_In (n : Z) (m : nat) :
  In m (retained_months n) <->
  (1 <= Z.of_nat m <= n /\
   (Z.of_nat m <= 12 \/ Z.of_nat m = n \/ Z.of_nat m mod 12 = 0))%Z.
Proof.
  unfold retained_months, retained.
  rewrite filter_In, in_seq, !orb_true_iff, Z.leb_le, !Z.eqb_eq.
  lia.
Qed.

Lemma filter_sorted_lt (f : nat -> bool) (l : list nat) :
  StronglySorted lt l -> StronglySorted lt (filter f l).
Proof.
  induction 1 as [|x l Hs IH Hx]; cbn [filter]; [constructor|].
  destruct (f x); [|exact IH].
  constructor; [exact IH|].
  rewrite Forall_forall in *. intros y Hy.
  apply filter_In in Hy. now apply Hx.
Qed.

Lemma seq_sorted_lt (k a : nat) : StronglySorted lt (seq a k).
Proof.
  revert a. induction k as [|k IH]; intro a; cbn [seq]; constructor.
  - apply IH.
  - rewrite Forall_forall. intros y Hy. apply in_seq in Hy. lia.
Qed.

Lemma map_of_nat_sorted (l : list nat) :
  StronglySorted lt l -> StronglySorted Z.lt (map Z.of_nat l).
Proof.
  induction 1 as [|x l Hs IH Hx]; cbn [map]; constructor; [exact IH|].
  rewrite Forall_forall in *. intros y Hy.
  apply in_map_iff in Hy. destruct Hy as [z [<- Hz]].
  apply Hx in Hz. lia.
Qed.

Lemma sorted_lt_NoDup (l : list Z) : StronglySorted Z.lt l -> NoDup l.
Proof.
  induction 1 as [|x l Hs IH Hx]; constructor; [|exact IH].
  intro Hin. rewrite Forall_forall in Hx. specialize (Hx _ Hin). lia.
Qed.

(** The last retained month is [termMonths] itself. *)
Lemma retained_months_last (n : Z) :
  (0 < n)%Z ->
  exists front, retained_months n = front ++ [Z.to_nat n].
Proof.
  intros Hn. unfold retained_months.
  destruct (Z.to_nat n) as [|k] eqn:E; [lia|].
  rewrite seq_S, filter_app. cbn [filter Nat.add].
  replace (retained n (Z.of_nat (S k))) with true.
  - eexists. reflexivity.
  - unfold retained. rewrite <- E, Z2Nat.id, Z.eqb_refl by lia.
    now rewrite orb_true_r.
Qed.

(** Every row of the schedule is the reported row of a month of the walk. *)
Lemma schedule_rows {num : Type} {ops : JsNumber num}
    (principal interestRate : num) (loanTerm : Z) (row : AmortizationRow) :
  let res := calculate_results principal interestRate loanTerm in
  In row (amortizationSchedule res) ->
  exists m : nat,
    (1 <= m <= Z.to_nat (loanTerm * 12))%nat /\
    row = reported_row (Calculate.monthlyPayment res)
                       (div (div interestRate (of_Z 100)) (of_Z 12))
                       principal m.
Proof.
  cbv zeta. rewrite calculate_schedule, in_map_iff.
  intros [m [<- Hm]]. exists m. split; [|reflexivity].
  apply retained_months_In in Hm. lia.
Qed.

(** With a positive term the schedule ends with the row of month
    [termMonths]. *)
Lemma schedule_last_row {num : Type} {ops : JsNumber num}
    (principal interestRate : num) (loanTerm : Z) :
  (0 < loanTerm)%Z ->
  let res := calculate_results principal interestRate loanTerm in
  exists rows,
    amortizationSchedule res =
    rows ++ [reported_row (Calculate.monthlyPayment res)
                          (div (div interestRate (of_Z 100)) (of_Z 12))
                          principal (Z.to_nat (loanTerm * 12))].
Proof.
  intros Hn. cbv zeta. rewrite calculate_schedule.
  destruct (retained_months_last (loanTerm * 12)) as [front ->]; [lia|].
  rewrite map_app. eexists. reflexivity.
Qed.

Lemma months_of_schedule {num : Type} {ops : JsNumber num}
    (principal interestRate : num) (loanTerm : Z) :
  map month (amortizationSchedule
               (calculate_results principal interestRate loanTerm)) =
  map Z.of_nat (retained_months (loanTerm * 12)).
Proof.
  rewrite calculate_schedule, map_map. reflexivity.
Qed.

(** C1. In every interpretation of the arithmetic and for every input, the
    schedule [/calculate] returns has a row for month [m] of the walk
    [1 .. termMonths] exactly when [m <= 12], [m = termMonths] or [m] is a
    multiple of 12; no month has two rows (in particular the last one, when
    [termMonths] is a multiple of 12), and the rows come in strictly
    increasing month order. *)
Theorem schedule_retention {num : Type} {ops : JsNumber num}
    (principal interestRate : num) (loanTerm : Z) :
  exists res,
    calculate principal interestRate loanTerm = Success res /\
    let termMonths := (loanTerm * 12)%Z in
    let ms := map month (amortizationSchedule res) in
    (forall m : Z,
        In m ms <->
        (1 <= m <= termMonths /\
         (m <= 12 \/ m = termMonths \/ m mod 12 = 0))%Z) /\
    NoDup ms /\
    StronglySorted Z.lt ms.
Proof.
  eexists. split; [reflexivity|].
  cbv zeta. rewrite months_of_schedule.
  assert (Hs : StronglySorted Z.lt
                 (map Z.of_nat (retained_months (loanTerm * 12)))).
  { apply map_of_nat_sorted, filter_sorted_lt, seq_sorted_lt. }
  split; [|split; [now apply sorted_lt_NoDup | exact Hs]].
  intro m. rewrite in_map_iff. split.
  - intros [k [<- Hk]]. now apply retained_months_In.
  - intro H. exists (Z.to_nat m).
    assert (Hm : Z.of_nat (Z.to_nat m) = m) by lia.
    split; [exact Hm|]. apply retained_months_In. now rewrite Hm.
Qed.

(** The 30-year case of the specification: months 1-12, then 24, 36, ...,
    348, 360, with a single row for month 360. *)
Example schedule_months_30_years {num : Type} {ops : JsNumber num}
    (principal interestRate : num) :
  map month (amortizationSchedule
               (calculate_results principal interestRate 30)) =
  [1; 2; 3; 4; 5; 6; 7; 8; 9; 10; 11; 12; 24; 36; 48; 60; 72; 84; 96; 108;
   120; 132; 144; 156; 168; 180; 192; 204; 216; 228; 240; 252; 264; 276;
   288; 300; 312; 324; 336; 348; 360]%Z.
Proof. rewrite months_of_schedule. vm_compute. reflexivity. Qed.

End CalculateFacts.

(** ** binary64: comparisons with zero, [Math.max] *)

Module Float64Facts.
Import Float64.

Local Open Scope float_scope.

Lemma Prim2SF_zero : Prim2SF 0 = S754_zero false.
Proof. reflexivity. Qed.

(** The numbers that are [=== 0] are [+0] and [-0]. *)
Lemma eqb_zero_inv (x : float) :
  (x =? 0) = true -> x = 0 \/ x = (-0).
Proof.
  rewrite eqb_spec, Prim2SF_zero.
  destruct (Prim2SF x) as [s|s| |s m e] eqn:E; cbn;
    try discriminate; try (destruct s; discriminate).
  intros _. apply (f_equal SF2Prim) in E. rewrite SF2Prim_Prim2SF in E.
  destruct s; [right|left]; exact E.
Qed.

Lemma is_nan_spec (x : float) : is_nan x = true <-> Prim2SF x = S754_nan.
Proof.
  unfold Prim2SF. destruct (is_nan x); [tauto|].
  split; [discriminate|].
  destruct (is_zero x); [discriminate|].
  destruct (is_infinity x); [discriminate|].
  destruct (Z.frexp x) as [r e]. destruct (shr_fexp _ _ _ _ _) as [mrs e'].
  destruct (shr_m mrs); discriminate.
Qed.

(** Unless it is NaN, a number that is not below zero is at least zero. *)
Lemma not_ltb_zero_leb (x : float) :
  is_nan x = false -> (0 <? x) = false -> (x <=? 0) = true.
Proof.
  intros Hn. rewrite ltb_spec, leb_spec, Prim2SF_zero.
  destruct (Prim2SF x) as [s|s| |s m e] eqn:E; cbn.
  - reflexivity.
  - destruct s; [reflexivity|discriminate].
  - apply is_nan_spec in E. congruence.
  - destruct s; [reflexivity|discriminate].
Qed.

Lemma ltb_zero_leb (x : float) : (0 <? x) = true -> (0 <=? x) = true.
Proof.
  rewrite ltb_spec, leb_spec, Prim2SF_zero.
  destruct (Prim2SF x) as [s|s| |s m e]; cbn; try discriminate;
    destruct s; try discriminate; reflexivity.
Qed.

(** [Math.max(0, x)] is NaN when [x] is, [x] when [x > 0], and [+0]
    otherwise. *)
Lemma Math_max_zero (x : float) :
  Math_max 0 x = if is_nan x then nan else if 0 <? x then x else 0.
Proof.
  unfold Math_max. change (is_nan 0) with false.
  change (is_neg_zero 0) with false. cbn [orb andb]. reflexivity.
Qed.

(** What [/calculate] reports as a remaining balance is never below zero:
    it is NaN, or at least zero. *)
Lemma Math_max_zero_sign (x : float) :
  (is_nan x = true /\ is_nan (Math_max 0 x) = true) \/
  (is_nan x = false /\ (0 <=? Math_max 0 x) = true).
Proof.
  rewrite Math_max_zero.
  destruct (is_nan x) eqn:Hn; [left; split; reflexivity|right].
  split; [reflexivity|].
  destruct (0 <? x) eqn:Hlt; [now apply ltb_zero_leb|reflexivity].
Qed.

Lemma Math_max_zero_nonpos (x : float) :
  (x <=? 0) = true -> Math_max 0 x = 0.
Proof.
  rewrite Math_max_zero, leb_spec, ltb_spec, Prim2SF_zero.
  destruct (is_nan x) eqn:Hn.
  - apply is_nan_spec in Hn. rewrite Hn. discriminate.
  - destruct (Prim2SF x) as [s|s| |s m e]; cbn; try discriminate;
      destruct s; try discriminate; reflexivity.
Qed.

End Float64Facts.

(** ** [/calculate] in binary64 *)

Module CalculateFloat64.
Import Calculate Float64 Float64Facts Scenarios.

Local Open Scope float_scope.

Section WithPow.

(** Whatever [Math.pow] computes. *)
Variable pow : float -> Z -> float.

Local Abbreviation calc := (calculate_results (ops := Float64.ops pow)).

(** An annual rate of [0] (or [-0]) gives a monthly rate that is [=== 0]. *)
Lemma zero_rate_branch (interestRate : float) :
  (interestRate =? 0) = true ->
  (interestRate / of_Z 100 / of_Z 12 =? of_Z 0) = true.
Proof.
  intros H. destruct (eqb_zero_inv _ H) as [-> | ->]; reflexivity.
Qed.

Lemma reference_payment_formula :
  Calculate.monthlyPayment (calc 200000 6 30) =
  reference_payment_of (pow (1 + 6 / 100 / 12) 360).
Proof. vm_compute. reflexivity. Qed.

(** Every value of [Math.pow] in the ball gives a payment within 0.005 of
    1199.10. *)
Lemma reference_payment_check :
  forallb (fun w => within (of_Q (5 # 1000)) (reference_payment_of w)
                           (of_Q (119910 # 100)))
          (ulp_ball 128 growth_6_percent_30_years) = true.
Proof. vm_compute. reflexivity. Qed.

End WithPow.

End CalculateFloat64.

(** ** [/calculate] in exact arithmetic *)

Module CalculateExact.
Import Calculate.

Local Open Scope R_scope.

Local Abbreviation bal := (unclamped_balance (ops := Exact.ops)).
Local Abbreviation calc := (calculate_results (ops := Exact.ops)).

Lemma strict_eq_true (x y : R) : Exact.strict_eq x y = true <-> x = y.
Proof.
  unfold Exact.strict_eq. destruct (Req_dec_T x y); split; intro;
    try reflexivity; try assumption; try discriminate; contradiction.
Qed.

Lemma strict_eq_false (x y : R) : Exact.strict_eq x y = false <-> x <> y.
Proof.
  unfold Exact.strict_eq. destruct (Req_dec_T x y); split; intro;
    try reflexivity; try assumption; try discriminate; contradiction.
Qed.

(** One step of the walk: the balance grows by the interest and shrinks by
    the payment. *)
Lemma bal_succ (mp r P : R) (k : nat) :
  bal mp r P (S k) = bal mp r P k * (1 + r) - mp.
Proof. cbn. ring. Qed.

Lemma bal_zero_rate (mp P : R) (k : nat) :
  bal mp 0 P k = P - INR k * mp.
Proof.
  induction k as [|k IH].
  - cbn. ring.
  - rewrite bal_succ, IH, S_INR. ring.
Qed.

(** The closed form of the running balance at a non-zero rate. *)
Lemma bal_closed_form (mp r P : R) (k : nat) :
  r <> 0 ->
  bal mp r P k = P * (1 + r) ^ k - mp * ((1 + r) ^ k - 1) / r.
Proof.
  intros Hr. induction k as [|k IH].
  - cbn. field. exact Hr.
  - rewrite bal_succ, IH. cbn [pow]. field. exact Hr.
Qed.

Section ValidInputs.

Variables (principal interestRate : R) (loanTerm : Z).
Hypothesis principal_pos : 0 < principal.
Hypothesis rate_nonneg : 0 <= interestRate.
Hypothesis term_pos : (0 < loanTerm)%Z.

Let r : R := interestRate / 100 / 12.
Let n : nat := Z.to_nat (loanTerm * 12).
Let mp : R := Calculate.monthlyPayment (calc principal interestRate loanTerm).

Lemma term_months : IZR (loanTerm * 12) = INR n /\ (12 <= n)%nat.
Proof.
  unfold n. split; [|lia].
  rewrite INR_IZR_INZ. f_equal. lia.
Qed.

Lemma term_power (x : R) : powerRZ x (loanTerm * 12) = x ^ n.
Proof.
  unfold n. rewrite pow_powerRZ. f_equal. lia.
Qed.

Lemma monthlyPayment_zero_rate : r = 0 -> mp = principal / INR n.
Proof.
  intros H0. unfold mp, calculate_results.
  cbn [strict_eq div Js.of_Z Exact.ops].
  fold r. rewrite (proj2 (strict_eq_true r 0) H0).
  cbn [Calculate.monthlyPayment]. now rewrite (proj1 term_months).
Qed.

Lemma monthlyPayment_annuity :
  r <> 0 ->
  mp = principal * (r * (1 + r) ^ n) / ((1 + r) ^ n - 1).
Proof.
  intros H0. unfold mp, calculate_results.
  cbn [strict_eq div add sub mul Math_pow Js.of_Z Exact.ops].
  fold r. rewrite (proj2 (strict_eq_false r 0) H0).
  cbn [Calculate.monthlyPayment]. now rewrite term_power.
Qed.

Lemma rate_cases : r = 0 \/ 0 < r.
Proof. unfold r. destruct (Req_dec_T interestRate 0); [left|right]; lra. Qed.

Lemma growth_gt_1 : 0 < r -> 1 < (1 + r) ^ n.
Proof.
  intros Hr. apply Rlt_pow_R1; [lra|]. pose proof term_months. lia.
Qed.

(** The payment exceeds the first month's interest: the balance goes
    down from the first month on. *)
Lemma payment_exceeds_interest : 0 < r -> principal * r < mp.
Proof.
  intros Hr. rewrite monthlyPayment_annuity by lra.
  pose proof (growth_gt_1 Hr) as Hw.
  set (w := (1 + r) ^ n) in *.
  replace (principal * (r * w) / (w - 1))
    with (principal * r + principal * r / (w - 1)) by (field; lra).
  assert (0 < principal * r / (w - 1)).
  { apply Rdiv_lt_0_compat; [apply Rmult_lt_0_compat|]; lra. }
  lra.
Qed.

(** After the last payment the balance is exactly zero. *)
Lemma final_balance_zero : bal mp r principal n = 0.
Proof.
  pose proof term_months as [_ Hn].
  assert (Hn0 : INR n <> 0) by (apply not_0_INR; lia).
  destruct rate_cases as [H0 | Hr].
  - rewrite monthlyPayment_zero_rate by exact H0.
    rewrite H0, bal_zero_rate. field. exact Hn0.
  - rewrite bal_closed_form by lra.
    rewrite monthlyPayment_annuity by lra.
    pose proof (growth_gt_1 Hr) as Hw.
    set (w := (1 + r) ^ n) in *. field. split; lra.
Qed.

(** At a positive rate the balance never exceeds the principal and goes
    strictly down with every payment. *)
Lemma balance_decreases (k : nat) :
  0 < r ->
  bal mp r principal k <= principal /\
  bal mp r principal (S k) < bal mp r principal k.
Proof.
  intros Hr. pose proof (payment_exceeds_interest Hr) as Hmp.
  induction k as [|k [IH1 IH2]].
  - rewrite bal_succ. cbn [unclamped_balance]. split; lra.
  - assert (Hle : bal mp r principal (S k) <= principal) by lra.
    split; [exact Hle|].
    rewrite (bal_succ mp r principal (S k)).
    assert (bal mp r principal (S k) * r <= principal * r)
      by (apply Rmult_le_compat_r; lra).
    lra.
Qed.

End ValidInputs.

(** *** The zero-rate branch *)

Lemma zero_rate_exact (principal : R) (loanTerm : Z) :
  (0 < loanTerm)%Z ->
  IZR (12 * loanTerm) <> 0 /\
  Calculate.monthlyPayment (calc principal 0 loanTerm)
  = principal / IZR (12 * loanTerm) /\
  totalPayment (calc principal 0 loanTerm) = principal /\
  totalInterest (calc principal 0 loanTerm) = 0.
Proof.
  intros Hn. split.
  - apply not_0_IZR. lia.
  - unfold calculate_results.
    cbn [strict_eq div Js.of_Z Exact.ops].
    rewrite (proj2 (strict_eq_true (0 / 100 / 12) 0)) by lra.
    cbn [Calculate.monthlyPayment totalPayment totalInterest].
    rewrite (Z.mul_comm 12). repeat split.
Qed.

(** *** The reference loan: 200000 at 6 percent over 30 years *)

Lemma reference_growth_bounds :
  6.0225 <= (1 + 6 / 100 / 12) ^ 360 <= 6.0226.
Proof.
  replace (1 + 6 / 100 / 12) with (IZR 201 / IZR 200) by lra.
  unfold Rdiv. rewrite Rpow_mult_distr, pow_inv, !pow_IZR.
  assert (HB : (0 < 200 ^ Z.of_nat 360)%Z) by (apply Z.pow_pos_nonneg; lia).
  assert (Hlo : (60225 * 200 ^ Z.of_nat 360 <= 10000 * 201 ^ Z.of_nat 360)%Z).
  { apply Z.leb_le. vm_compute. reflexivity. }
  assert (Hhi : (10000 * 201 ^ Z.of_nat 360 <= 60226 * 200 ^ Z.of_nat 360)%Z).
  { apply Z.leb_le. vm_compute. reflexivity. }
  apply IZR_lt in HB. apply IZR_le in Hlo, Hhi.
  rewrite !mult_IZR in Hlo, Hhi.
  set (a := IZR (201 ^ Z.of_nat 360)) in *.
  set (b := IZR (200 ^ Z.of_nat 360)) in *.
  assert (Hinv : 0 < / b) by (now apply Rinv_0_lt_compat).
  assert (Hb1 : b * / b = 1) by (apply Rinv_r; lra).
  split; nra.
Qed.

Lemma reference_payment_exact :
  Rabs (Calculate.monthlyPayment (calc 200000 6 30) - 1199.10) <= 0.005.
Proof.
  rewrite monthlyPayment_annuity by (lia || lra).
  change (Z.to_nat (30 * 12)) with 360%nat.
  pose proof reference_growth_bounds as [Hlo Hhi].
  set (w := (1 + 6 / 100 / 12) ^ 360) in *.
  replace (200000 * (6 / 100 / 12 * w) / (w - 1)) with (1000 * w / (w - 1))
    by (field; lra).
  assert (Hinv : 0 < / (w - 1)) by (apply Rinv_0_lt_compat; lra).
  assert (Hw1 : (w - 1) * / (w - 1) = 1) by (apply Rinv_r; lra).
  apply Rabs_le. unfold Rdiv. split; nra.
Qed.

End CalculateExact.

(** ** The amortization rows: binary64 against exact arithmetic *)

Module Amortization.
Import Calculate CalculateFacts Scenarios.

Local Abbreviation calcF pow := (calculate (ops := Float64.ops pow)).
Local Abbreviation calcR := (calculate (ops := Exact.ops)).
Local Abbreviation balF pow := (unclamped_balance (ops := Float64.ops pow)).
Local Abbreviation balR := (unclamped_balance (ops := Exact.ops)).

(** A row of a computed schedule that fails a check, found by running the
    check over the schedule. *)
Lemma failing_row {A : Type} (check : A -> bool) (l : list A) :
  forallb check l = false -> exists x, In x l /\ check x = false.
Proof.
  induction l as [|x l IH]; cbn [forallb]; [discriminate|].
  destruct (check x) eqn:E; cbn [andb].
  - intros H. destruct (IH H) as [y [Hy Hc]]. exists y. split; [now right|exact Hc].
  - intros _. exists x. split; [now left|exact E].
Qed.

(** *** The zero-rate branch *)

(** C2. With [interestRate = 0] the handler takes the zero-rate branch and
    never evaluates the annuity formula.  In binary64, for every principal,
    every term and whatever [Math.pow] is, it answers with
    [monthlyPayment = principal / (12 x loanTerm)] (one division),
    [totalPayment = principal] and [totalInterest = 0]; over the real
    numbers it answers the same for every positive term, and the divisor
    [12 x loanTerm] is not zero. *)
Theorem zero_rate_results (pow : float -> Z -> float)
    (principal interestRate : float) (principalR : R) (loanTerm : Z) :
  (interestRate =? 0)%float = true ->
  (0 < loanTerm)%Z ->
  (exists res,
      calcF pow principal interestRate loanTerm = Success res /\
      Calculate.monthlyPayment res
      = (principal / Float64.of_Z (12 * loanTerm))%float /\
      totalPayment res = principal /\
      totalInterest res = 0%float) /\
  (exists res,
      calcR principalR 0%R loanTerm = Success res /\
      IZR (12 * loanTerm) <> 0%R /\
      Calculate.monthlyPayment res = (principalR / IZR (12 * loanTerm))%R /\
      totalPayment res = principalR /\
      totalInterest res = 0%R).
Proof.
  intros H Hn. split.
  - eexists. split; [reflexivity|].
    apply (CalculateFloat64.zero_rate_branch) in H.
    unfold calculate_results.
    cbn [strict_eq div Js.of_Z Float64.ops].
    rewrite H. cbn [Calculate.monthlyPayment totalPayment totalInterest].
    rewrite (Z.mul_comm 12). repeat split.
  - eexists. split; [reflexivity|].
    exact (CalculateExact.zero_rate_exact principalR loanTerm Hn).
Qed.

Lemma zero_rate_results_witness :
  (0 =? 0)%float = true /\
  (0 < 30)%Z /\
  (exists res,
      calcF Float64.pow_ref 200000%float 0%float 30%Z = Success res /\
      Calculate.monthlyPayment res
      = (200000 / Float64.of_Z (12 * 30))%float /\
      totalPayment res = 200000%float /\
      totalInterest res = 0%float) /\
  (exists res,
      calcR 200000%R 0%R 30%Z = Success res /\
      IZR (12 * 30) <> 0%R /\
      Calculate.monthlyPayment res = (200000 / IZR (12 * 30))%R /\
      totalPayment res = 200000%R /\
      totalInterest res = 0%R).
Proof.
  assert (H : (0 =? 0)%float = true) by reflexivity.
  assert (Hn : (0 < 30)%Z) by lia.
  split; [exact H|]. split; [exact Hn|].
  exact (zero_rate_results Float64.pow_ref 200000%float 0%float 200000%R 30%Z
           H Hn).
Defined.

(** *** Principal and interest portions *)



(** *** The final row *)

(** In binary64 the balance left after the last payment is a rounding
    residue, and a positive residue is reported as it is: 100 lent at 0%
    for one year leave 2^-48 in the row of month 12.  This input takes the
    zero-rate branch, so [Math.pow] plays no part. *)
Lemma final_balance_counterexample :
  exists res rows row,
    calcF Float64.pow_ref 100%float 0%float 1%Z = Success res /\
    amortizationSchedule res = rows ++ [row] /\
    month row = 12%Z /\
    remainingBalance row = 0x1p-48%float /\
    (remainingBalance row =? 0)%float = false.
Proof.
  eexists.
  exists (removelast
            (amortizationSchedule
               (calculate_results (ops := Float64.ops Float64.pow_ref)
                  100%float 0%float 1%Z))).
  exists (last
            (amortizationSchedule
               (calculate_results (ops := Float64.ops Float64.pow_ref)
                  100%float 0%float 1%Z))
            {| month := 0; payment := 0%float; principalPayment := 0%float;
               interestPayment := 0%float; remainingBalance := 0%float |}).
  split; [reflexivity|].
  vm_compute. repeat split.
Qed.

(** C4, as amended.  For every input with a positive term the schedule ends
    with the row of month [termMonths], and the balance that row reports is
    [Math.max(0, b)], [b] being the running balance after the last payment.
    In binary64 (whatever [Math.pow] is) it is NaN when [b] is, [+0] when
    [b <= 0], and [b] itself otherwise, so it is never negative; over the
    real numbers, for every rate that is not negative, [b] is zero and the
    reported balance is exactly 0. *)
Theorem final_balance (pow : float -> Z -> float)
    (principal interestRate : float) (principalR interestRateR : R)
    (loanTerm : Z) :
  (0 < loanTerm)%Z ->
  (0 <= interestRateR)%R ->
  (exists res rows row,
      calcF pow principal interestRate loanTerm = Success res /\
      amortizationSchedule res = rows ++ [row] /\
      month row = (loanTerm * 12)%Z /\
      let b := balF pow (Calculate.monthlyPayment res)
                 (interestRate / 100 / 12)%float principal
                 (Z.to_nat (loanTerm * 12)) in
      remainingBalance row = Float64.Math_max 0 b /\
      ((is_nan b = true /\ is_nan (remainingBalance row) = true) \/
       (is_nan b = false /\ (0 <=? remainingBalance row)%float = true)) /\
      ((b <=? 0)%float = true -> remainingBalance row = 0%float)) /\
  (exists res rows row,
      calcR principalR interestRateR loanTerm = Success res /\
      amortizationSchedule res = rows ++ [row] /\
      month row = (loanTerm * 12)%Z /\
      remainingBalance row = 0%R).
Proof.
  intros Hn Hr. split.
  - destruct (schedule_last_row (ops := Float64.ops pow)
                principal interestRate loanTerm Hn) as [rows Hrows].
    eexists. exists rows. eexists.
    split; [reflexivity|]. split; [exact Hrows|].
    cbn [month reported_row]. split; [lia|].
    cbv zeta. cbn [remainingBalance Math_max Js.of_Z Float64.ops].
    change (Float64.of_Z 0) with 0%float.
    split; [reflexivity|]. split.
    + apply Float64Facts.Math_max_zero_sign.
    + apply Float64Facts.Math_max_zero_nonpos.
  - destruct (schedule_last_row (ops := Exact.ops)
                principalR interestRateR loanTerm Hn) as [rows Hrows].
    eexists. exists rows. eexists.
    split; [reflexivity|]. split; [exact Hrows|].
    cbn [month reported_row]. split; [lia|].
    unfold reported_row.
    cbn [remainingBalance Math_max Js.of_Z Exact.ops div].
    rewrite (CalculateExact.final_balance_zero principalR interestRateR
               loanTerm Hr Hn).
    apply Rmax_left. lra.
Qed.

Lemma final_balance_witness :
  (0 < 30)%Z /\ (0 <= 6)%R /\
  (exists res rows row,
      calcF Float64.pow_ref 200000%float 6%float 30%Z = Success res /\
      amortizationSchedule res = rows ++ [row] /\
      month row = (30 * 12)%Z /\
      let b := balF Float64.pow_ref (Calculate.monthlyPayment res)
                 (6 / 100 / 12)%float 200000%float (Z.to_nat (30 * 12)) in
      remainingBalance row = Float64.Math_max 0 b /\
      ((is_nan b = true /\ is_nan (remainingBalance row) = true) \/
       (is_nan b = false /\ (0 <=? remainingBalance row)%float = true)) /\
      ((b <=? 0)%float = true -> remainingBalance row = 0%float)) /\
  (exists res rows row,
      calcR 200000%R 6%R 30%Z = Success res /\
      amortizationSchedule res = rows ++ [row] /\
      month row = (30 * 12)%Z /\
      remainingBalance row = 0%R).
Proof.
  assert (Hn : (0 < 30)%Z) by lia.
  assert (Hr : (0 <= 6)%R) by lra.
  split; [exact Hn|]. split; [exact Hr|].
  exact (final_balance Float64.pow_ref 200000%float 6%float
           200000%R 6%R 30%Z Hn Hr).
Defined.

(** *** Reported balances *)

(** In binary64 a reported balance can fail to be [>= 0]: when the payment
    is NaN ([Math.pow(2, 1200)] is infinite) every running balance is NaN,
    and [Math.max(0, NaN)] is NaN. *)
Lemma reported_balance_counterexample :
  exists res row,
    calcF Float64.pow_ref 1%float 1200%float 100%Z = Success res /\
    In row (amortizationSchedule res) /\
    (0 <=? remainingBalance row)%float = false.
Proof.
  destruct (failing_row
              (fun row : AmortizationRow => (0 <=? remainingBalance row)%float)
              (amortizationSchedule
                 (calculate_results (ops := Float64.ops Float64.pow_ref)
                    1%float 1200%float 100%Z)))
    as [row [Hin Hc]]; [vm_compute; reflexivity|].
  eexists. exists row. split; [reflexivity|]. split; assumption.
Qed.

(** C5, as amended.  Every row of the schedule belongs to a month [m] of
    [1 .. termMonths] and reports [Math.max(0, b_m)], where [b] is the
    unclamped recurrence [b_0 = principal],
    [b_m = b_(m-1) - (monthlyPayment - b_(m-1) x monthlyRate)]: the clamped
    value is never fed back.  In binary64 (whatever [Math.pow] is) the
    reported balance is [>= 0] unless [b_m] is NaN, in which case it is NaN;
    over the real numbers it is always [>= 0]. *)
Theorem reported_balance (pow : float -> Z -> float)
    (principal interestRate : float) (principalR interestRateR : R)
    (loanTerm : Z) :
  (exists res,
      calcF pow principal interestRate loanTerm = Success res /\
      forall row, In row (amortizationSchedule res) ->
        exists m : nat,
          month row = Z.of_nat m /\
          (1 <= m <= Z.to_nat (loanTerm * 12))%nat /\
          let b := balF pow (Calculate.monthlyPayment res)
                     (interestRate / 100 / 12)%float principal m in
          remainingBalance row = Float64.Math_max 0 b /\
          ((is_nan b = true /\ is_nan (remainingBalance row) = true) \/
           (is_nan b = false /\ (0 <=? remainingBalance row)%float = true))) /\
  (exists res,
      calcR principalR interestRateR loanTerm = Success res /\
      forall row, In row (amortizationSchedule res) ->
        exists m : nat,
          month row = Z.of_nat m /\
          (1 <= m <= Z.to_nat (loanTerm * 12))%nat /\
          let b := balR (Calculate.monthlyPayment res)
                     (interestRateR / 100 / 12)%R principalR m in
          remainingBalance row = Rmax 0 b /\
          (0 <= remainingBalance row)%R).
Proof.
  split.
  - eexists. split; [reflexivity|]. intros row Hin.
    apply schedule_rows in Hin. destruct Hin as [m [Hm ->]].
    exists m. split; [reflexivity|]. split; [exact Hm|].
    cbv zeta. unfold reported_row.
    cbn [remainingBalance Math_max Js.of_Z Float64.ops div].
    change (Float64.of_Z 0) with 0%float.
    split; [reflexivity|]. apply Float64Facts.Math_max_zero_sign.
  - eexists. split; [reflexivity|]. intros row Hin.
    apply schedule_rows in Hin. destruct Hin as [m [Hm ->]].
    exists m. split; [reflexivity|]. split; [exact Hm|].
    cbv zeta. unfold reported_row.
    cbn [remainingBalance Math_max Js.of_Z Exact.ops div].
    split; [reflexivity|]. apply Rmax_l.
Qed.

(** *** Interest falls and principal rises *)




(** *** The reference payment *)

(** C9. For principal 200000, 6 percent and 30 years, [/calculate] returns a
    [monthlyPayment] within 0.005 of 1199.10 (it is 1199.1010503...), for
    every [Math.pow] whose value at [(1 + 6/100/12, 360)] is within 128
    units in the last place of the binary64 number nearest to that
    power; over the real numbers the payment is within 0.005 of 1199.10 as
    well. *)
Theorem reference_payment (pow : float -> Z -> float) :
  Float64.within_ulps 128 growth_6_percent_30_years
    (pow (1 + 6 / 100 / 12)%float 360%Z) ->
  (exists res,
      calcF pow 200000%float 6%float 30%Z = Success res /\
      Float64.within (Float64.of_Q (5 # 1000)) (Calculate.monthlyPayment res)
                     (Float64.of_Q (119910 # 100)) = true) /\
  (exists res,
      calcR 200000%R 6%R 30%Z = Success res /\
      (Rabs (Calculate.monthlyPayment res - 1199.10) <= 0.005)%R).
Proof.
  intros H. split.
  - eexists. split; [reflexivity|].
    rewrite CalculateFloat64.reference_payment_formula.
    exact (proj1 (forallb_forall _ _)
             CalculateFloat64.reference_payment_check _ H).
  - eexists. split; [reflexivity|].
    exact CalculateExact.reference_payment_exact.
Qed.


(** Binary exponentiation in binary64 is such a [Math.pow]. *)
Lemma reference_payment_witness :
  Float64.within_ulps 128 growth_6_percent_30_years
    (Float64.pow_ref (1 + 6 / 100 / 12)%float 360%Z) /\
  (exists res,
      calcF Float64.pow_ref 200000%float 6%float 30%Z = Success res /\
      Float64.within (Float64.of_Q (5 # 1000)) (Calculate.monthlyPayment res)
                     (Float64.of_Q (119910 # 100)) = true) /\
  (exists res,
      calcR 200000%R 6%R 30%Z = Success res /\
      (Rabs (Calculate.monthlyPayment res - 1199.10) <= 0.005)%R).
Proof.
  assert (H : Float64.within_ulps 128 growth_6_percent_30_years
                (Float64.pow_ref (1 + 6 / 100 / 12)%float 360%Z)).
  { unfold Float64.within_ulps.
    replace (Float64.pow_ref (1 + 6 / 100 / 12)%float 360%Z)
      with (nth 240 (Float64.ulp_ball 128 growth_6_percent_30_years) 0%float)
      by (vm_compute; reflexivity).
    apply nth_In, Nat.ltb_lt. vm_compute. reflexivity. }
  split; [exact H|].
  exact (reference_payment Float64.pow_ref H).
Defined.

End Amortization.

(** ** [/affordability] *)

Module AffordabilityClaims.
Import Affordability Scenarios.

Local Abbreviation affF pow := (affordability (ops := Float64.ops pow)).
Local Abbreviation affR := (affordability (ops := Exact.ops)).

Lemma example_ratio_formula (pow : float -> Z -> float) :
  debtToIncomeRatio
    (affordability_results (ops := Float64.ops pow) example_body) =
  example_ratio_of (pow (1 + 5 / 100 / 12)%float 360%Z).
Proof. vm_compute. reflexivity. Qed.

Lemma example_ratio_check :
  forallb (fun w => (example_ratio_of w <=? 36)%float)
          (Float64.ulp_ball 128 growth_5_percent_30_years) = true.
Proof. vm_compute. reflexivity. Qed.

(** *** Debts above the back-end cap *)

Section Exact.

Local Open Scope R_scope.

Variable body : AffordabilityInputs (num := R).
Hypothesis Hvalid : valid_body body.
Hypothesis Hover : over_cap body.

Local Abbreviation r := (monthlyInterestRate (ops := Exact.ops) body).
Local Abbreviation n := (loanTermMonths body).
Local Abbreviation avail := (availableForHousing (ops := Exact.ops) body).
Local Abbreviation loan := (maxLoanAmount (ops := Exact.ops) body).

Lemma available_negative : avail < 0.
Proof.
  unfold availableForHousing, monthlyIncome, over_cap in *.
  cbn [Math_min mul sub div Js.of_Q Js.of_Z Exact.ops].
  apply Rle_lt_trans with (1 := Rmin_r _ _).
  unfold Q2R. cbn [Qnum Qden]. lra.
Qed.

Lemma affordability_rate_cases : r = 0 \/ 0 < r.
Proof.
  unfold monthlyInterestRate. cbn [div Js.of_Z Exact.ops].
  destruct Hvalid as (_ & _ & _ & Hr & _).
  destruct (Req_dec_T (interestRate body) 0); [left|right]; lra.
Qed.

Lemma affordability_term_months : IZR n = INR (Z.to_nat n) /\ (12 <= Z.to_nat n)%nat.
Proof.
  destruct Hvalid as (_ & _ & _ & _ & Hn & _).
  unfold loanTermMonths. split; [|lia].
  rewrite INR_IZR_INZ. f_equal. lia.
Qed.

(** The annuity factor [r (1+r)^n / ((1+r)^n - 1)] of a positive rate. *)
Lemma affordability_growth_gt_1 : 0 < r -> 1 < powerRZ (1 + r) n.
Proof.
  intros Hr. destruct affordability_term_months as [_ Hn].
  replace n with (Z.of_nat (Z.to_nat n)) by (unfold loanTermMonths in *; lia).
  rewrite <- pow_powerRZ. apply Rlt_pow_R1; [lra|lia].
Qed.

Lemma annuity_factor_pos :
  0 < r -> 0 < r * powerRZ (1 + r) n / (powerRZ (1 + r) n - 1).
Proof.
  intros Hr. pose proof (affordability_growth_gt_1 Hr).
  apply Rdiv_lt_0_compat; [apply Rmult_lt_0_compat|]; lra.
Qed.

Lemma max_loan_negative : loan < 0.
Proof.
  pose proof available_negative as Ha.
  unfold maxLoanAmount.
  cbn [strict_eq add sub mul div Math_pow Js.of_Z Exact.ops].
  destruct affordability_rate_cases as [H0 | Hr].
  - rewrite (proj2 (CalculateExact.strict_eq_true r 0) H0).
    destruct affordability_term_months as [-> Hn].
    assert (0 < INR (Z.to_nat n)) by (apply lt_0_INR; lia).
    nra.
  - rewrite (proj2 (CalculateExact.strict_eq_false r 0)) by lra.
    pose proof (annuity_factor_pos Hr) as Hk.
    destruct Hvalid as (_ & _ & _ & _ & _ & Ht & Hi).
    set (k := r * powerRZ (1 + r) n / (powerRZ (1 + r) n - 1)) in *.
    set (d := k + propertyTaxRate body / 100 / 12
                + insuranceRate body / 100 / 12).
    assert (Hd : 0 < d) by (unfold d; lra).
    assert (Hinv : 0 < / d) by (now apply Rinv_0_lt_compat).
    unfold Rdiv at 1. nra.
Qed.

(** The principal-and-interest of the response is the negative loan amount
    times a positive factor. *)
Lemma principal_and_interest_negative :
  principalAndInterest
    (paymentBreakdown (affordability_results (ops := Exact.ops) body)) < 0.
Proof.
  pose proof max_loan_negative as Hl.
  unfold affordability_results.
  cbn [paymentBreakdown principalAndInterest
       strict_eq add sub mul div Math_pow Js.of_Z Exact.ops].
  replace (loan + downPayment body - downPayment body) with loan by ring.
  destruct affordability_rate_cases as [H0 | Hr].
  - rewrite (proj2 (CalculateExact.strict_eq_true r 0) H0).
    destruct affordability_term_months as [-> Hn].
    assert (0 < / INR (Z.to_nat n))
      by (apply Rinv_0_lt_compat, lt_0_INR; lia).
    unfold Rdiv. nra.
  - rewrite (proj2 (CalculateExact.strict_eq_false r 0)) by lra.
    pose proof (annuity_factor_pos Hr) as Hk.
    replace (loan * (r * powerRZ (1 + r) n) / (powerRZ (1 + r) n - 1))
      with (loan * (r * powerRZ (1 + r) n / (powerRZ (1 + r) n - 1)))
      by (unfold Rdiv; ring).
    nra.
Qed.

End Exact.

(** *** The two passes agree

    Over the real numbers and at a positive rate, the payment recomputed on
    [maxHomePrice - downPayment] gives back [availableForHousing], plus the
    taxes and insurance on the down payment. *)
Lemma monthly_payment_exact (body : AffordabilityInputs (num := R)) :
  valid_body body ->
  (0 < interestRate body)%R ->
  (Affordability.monthlyPayment
     (affordability_results (ops := Exact.ops) body) =
   availableForHousing (ops := Exact.ops) body
   + downPayment body
     * (propertyTaxRate body / 100 / 12 + insuranceRate body / 100 / 12))%R.
Proof.
  intros Hv Hrate.
  assert (Hr : (0 < monthlyInterestRate (ops := Exact.ops) body)%R).
  { unfold monthlyInterestRate. cbn [div Js.of_Z Exact.ops]. lra. }
  pose proof (annuity_factor_pos body Hv Hr) as Hk.
  pose proof (affordability_growth_gt_1 body Hv Hr) as Hw.
  destruct Hv as (_ & _ & _ & _ & _ & Ht & Hi).
  unfold affordability_results, maxLoanAmount.
  cbn [Affordability.monthlyPayment
       strict_eq add sub mul div Math_pow Js.of_Z Exact.ops].
  rewrite (proj2 (CalculateExact.strict_eq_false _ 0)) by lra.
  set (r := monthlyInterestRate body) in *.
  set (w := powerRZ (1 + r) (loanTermMonths body)) in *.
  set (a := availableForHousing body).
  assert (Hrw : (0 < r * w)%R) by (apply Rmult_lt_0_compat; lra).
  assert (Htw : (0 <= propertyTaxRate body * (w - 1))%R)
    by (apply Rmult_le_pos; lra).
  assert (Hiw : (0 <= insuranceRate body * (w - 1))%R)
    by (apply Rmult_le_pos; lra).
  field. split; lra.
Qed.

(** The example of the specification over the real numbers: 2100 are
    available for housing, and the ratio is 32.377... *)
Lemma example_ratio_exact :
  (0 <= availableForHousing (ops := Exact.ops) example_body_exact)%R /\
  (debtToIncomeRatio
     (affordability_results (ops := Exact.ops) example_body_exact) <= 36)%R.
Proof.
  assert (Hv : valid_body example_body_exact)
    by (unfold valid_body; cbn; repeat split; try lra; lia).
  assert (Ha : availableForHousing (ops := Exact.ops) example_body_exact
               = 2100%R).
  { unfold availableForHousing, monthlyIncome.
    cbn [Math_min mul sub div Js.of_Q Js.of_Z Exact.ops
         annualIncome monthlyDebts example_body_exact].
    unfold Q2R. cbn [Qnum Qden].
    rewrite Rmin_left; lra. }
  split; [lra|].
  pose proof (monthly_payment_exact example_body_exact Hv) as Hm.
  rewrite Ha in Hm.
  unfold affordability_results in *.
  cbn [debtToIncomeRatio Affordability.monthlyPayment] in *.
  unfold monthlyIncome.
  cbn [add mul div Js.of_Z Exact.ops annualIncome monthlyDebts downPayment
       interestRate propertyTaxRate insuranceRate example_body_exact] in *.
  rewrite Hm by lra. lra.
Qed.




(** *** The example of the specification *)

(** C6. For the example input, [availableForHousing] is not negative and
    the [debtToIncomeRatio] that [/affordability] returns is at most 36 (it
    is 32.377...): in binary64 for every [Math.pow] whose value at
    [(1 + 5/100/12, 360)] is within 128 units in the last place of the
    binary64 number nearest to that power, and over the real numbers. *)
Theorem example_debt_to_income (pow : float -> Z -> float) :
  Float64.within_ulps 128 growth_5_percent_30_years
    (pow (1 + 5 / 100 / 12)%float 360%Z) ->
  (exists res,
      affF pow example_body = Success res /\
      (0 <=? availableForHousing (ops := Float64.ops pow) example_body)%float
      = true /\
      (debtToIncomeRatio res <=? 36)%float = true) /\
  (exists res,
      affR example_body_exact = Success res /\
      (0 <= availableForHousing (ops := Exact.ops) example_body_exact)%R /\
      (debtToIncomeRatio res <= 36)%R).
Proof.
  intros H. split.
  - eexists. split; [reflexivity|].
    split; [vm_compute; reflexivity|].
    rewrite example_ratio_formula.
    exact (proj1 (forallb_forall _ _) example_ratio_check _ H).
  - eexists. split; [reflexivity|]. exact example_ratio_exact.
Qed.

(** Binary exponentiation in binary64 is such a [Math.pow]. *)
Lemma example_debt_to_income_witness :
  Float64.within_ulps 128 growth_5_percent_30_years
    (Float64.pow_ref (1 + 5 / 100 / 12)%float 360%Z) /\
  (exists res,
      affF Float64.pow_ref example_body = Success res /\
      (0 <=? availableForHousing (ops := Float64.ops Float64.pow_ref)
               example_body)%float = true /\
      (debtToIncomeRatio res <=? 36)%float = true) /\
  (exists res,
      affR example_body_exact = Success res /\
      (0 <= availableForHousing (ops := Exact.ops) example_body_exact)%R /\
      (debtToIncomeRatio res <= 36)%R).
Proof.
  assert (H : Float64.within_ulps 128 growth_5_percent_30_years
                (Float64.pow_ref (1 + 5 / 100 / 12)%float 360%Z)).
  { unfold Float64.within_ulps.
    replace (Float64.pow_ref (1 + 5 / 100 / 12)%float 360%Z)
      with (nth 16 (Float64.ulp_ball 128 growth_5_percent_30_years) 0%float)
      by (vm_compute; reflexivity).
    apply nth_In, Nat.ltb_lt. vm_compute. reflexivity. }
  split; [exact H|].
  exact (example_debt_to_income Float64.pow_ref H).
Defined.

End AffordabilityClaims.

(** ** [/compare] *)

Module CompareClaims.
Import Compare Scenarios.

Local Abbreviation cmpF := (compare (ops := Float64.ops Float64.pow_ref)).
Local Abbreviation cmpR := (compare (ops := Exact.ops)).



End CompareClaims.

(** ** The shape of the schedule *)

Module ScheduleShape.
Import Calculate CalculateFacts Shapes.

(** Two strictly increasing lists with the same elements are the same
    list. *)
Lemma sorted_lt_unique (l1 l2 : list nat) :
  StronglySorted lt l1 -> StronglySorted lt l2 ->
  (forall x, In x l1 <-> In x l2) -> l1 = l2.
Proof.
  intros H1. revert l2.
  induction H1 as [|a l1 Hs1 IH Ha]; intros l2 H2 Heq.
  - destruct l2 as [|b l2]; [reflexivity|].
    exfalso. apply (proj2 (Heq b)). now left.
  - destruct H2 as [|b l2 Hs2 Hb].
    + exfalso. apply (proj1 (Heq a)). now left.
    + rewrite Forall_forall in Ha, Hb.
      assert (a = b).
      { destruct (proj1 (Heq a) (or_introl eq_refl)) as [->|Hin]; [reflexivity|].
        destruct (proj2 (Heq b) (or_introl eq_refl)) as [->|Hin']; [reflexivity|].
        apply Hb in Hin. apply Ha in Hin'. lia. }
      subst b. f_equal. apply IH; [exact Hs2|].
      intro x. split; intro Hx.
      * destruct (proj1 (Heq x) (or_intror Hx)) as [->|Hin]; [|exact Hin].
        apply Ha in Hx. lia.
      * destruct (proj2 (Heq x) (or_intror Hx)) as [->|Hin]; [|exact Hin].
        apply Hb in Hx. lia.
Qed.

Lemma sorted_lt_app (l1 l2 : list nat) :
  StronglySorted lt l1 -> StronglySorted lt l2 ->
  (forall x y, In x l1 -> In y l2 -> x < y)%nat ->
  StronglySorted lt (l1 ++ l2).
Proof.
  induction 1 as [|a l1 Hs IH Ha]; intros H2 Hlt; cbn [app]; [exact H2|].
  constructor.
  - apply IH; [exact H2|]. intros x y Hx Hy. apply Hlt; [now right|exact Hy].
  - rewrite Forall_forall in *. intros y Hy. apply in_app_or in Hy.
    destruct Hy as [Hy|Hy]; [now apply Ha|]. apply Hlt; [now left|exact Hy].
Qed.

Lemma anniversaries_In (years m : nat) :
  In m (anniversaries years) <->
  exists k, (2 <= k <= years)%nat /\ m = (12 * k)%nat.
Proof.
  unfold anniversaries. rewrite in_map_iff. split.
  - intros [k [<- Hk]]. apply in_seq in Hk. exists k. split; lia.
  - intros [k [Hk ->]]. exists k. split; [reflexivity|]. apply in_seq. lia.
Qed.

Lemma multiples_sorted (a k : nat) :
  StronglySorted lt (map (fun j => 12 * j)%nat (seq a k)).
Proof.
  revert a. induction k as [|k IH]; intro a; cbn [seq map]; constructor.
  - apply IH.
  - rewrite Forall_forall. intros y Hy. apply in_map_iff in Hy.
    destruct Hy as [z [<- Hz]]. apply in_seq in Hz. lia.
Qed.

Lemma anniversaries_sorted (years : nat) :
  StronglySorted lt (seq 1 12 ++ anniversaries years).
Proof.
  apply sorted_lt_app.
  - apply seq_sorted_lt.
  - apply multiples_sorted.
  - intros x y Hx Hy. apply in_seq in Hx. apply anniversaries_In in Hy.
    destruct Hy as [k [Hk ->]]. lia.
Qed.

(** With a term of [years >= 1] the retained months are the first twelve
    and the anniversaries. *)
Lemma retained_months_shape (years : nat) :
  (1 <= years)%nat ->
  retained_months (Z.of_nat years * 12) = seq 1 12 ++ anniversaries years.
Proof.
  intros Hy. apply sorted_lt_unique.
  - apply filter_sorted_lt, seq_sorted_lt.
  - apply anniversaries_sorted.
  - intro m. rewrite retained_months_In, in_app_iff, in_seq, anniversaries_In.
    split.
    + intros [Hr Hc]. destruct (Nat.le_gt_cases m 12) as [Hle|Hgt]; [left; lia|].
      right.
      assert (Hm : (Z.of_nat m mod 12 = 0)%Z).
      { destruct Hc as [Hc|[Hc|Hc]]; [lia| |exact Hc].
        rewrite Hc. apply Z.mod_mul. lia. }
      apply Z.mod_divide in Hm; [|lia]. destruct Hm as [q Hq].
      exists (Z.to_nat q). lia.
    + intros [Hm|[k [Hk ->]]]; split; try lia.
      right. right. rewrite Nat2Z.inj_mul. rewrite Z.mul_comm. apply Z.mod_mul. lia.
Qed.

(** X1. The schedule of [/calculate], in every interpretation and for every
    term of at least one year: its months are 1 to 12 followed by the
    anniversaries 24, 36, ..., [termMonths], so it has [loanTerm + 11] rows;
    the test [month === loanTermMonths] never decides, the last month being
    an anniversary (or month 12). *)
Theorem schedule_shape {num : Type} {ops : JsNumber num}
    (principal interestRate : num) (loanTerm : Z) :
  (1 <= loanTerm)%Z ->
  exists res,
    calculate principal interestRate loanTerm = Success res /\
    map month (amortizationSchedule res) =
      map Z.of_nat (seq 1 12 ++ anniversaries (Z.to_nat loanTerm)) /\
    Z.of_nat (List.length (amortizationSchedule res)) = (loanTerm + 11)%Z /\
    forall m : Z,
      (1 <= m <= loanTerm * 12)%Z ->
      retained (loanTerm * 12) m = ((m <=? 12) || (m mod 12 =? 0))%Z%bool.
Proof.
  intros Hn. eexists. split; [reflexivity|].
  assert (Hs : map month
                 (amortizationSchedule
                    (calculate_results principal interestRate loanTerm)) =
               map Z.of_nat (seq 1 12 ++ anniversaries (Z.to_nat loanTerm))).
  { rewrite months_of_schedule.
    replace (loanTerm * 12)%Z with (Z.of_nat (Z.to_nat loanTerm) * 12)%Z by lia.
    rewrite retained_months_shape by lia. reflexivity. }
  split; [exact Hs|]. split.
  - apply (f_equal (@List.length Z)) in Hs. rewrite !length_map in Hs. rewrite Hs.
    rewrite length_app, length_seq. unfold anniversaries.
    rewrite length_map, length_seq. lia.
  - intros m Hm. unfold retained.
    destruct (m =? loanTerm * 12)%Z eqn:E; [|now rewrite orb_false_r].
    apply Z.eqb_eq in E. subst m. rewrite orb_true_r.
    rewrite Z.mod_mul by lia. cbn. now rewrite orb_true_r.
Qed.

Lemma schedule_shape_witness :
  (1 <= 30)%Z /\
  exists res,
    calculate (ops := Float64.ops Float64.pow_ref)
      200000%float 6%float 30%Z = Success res /\
    map month (amortizationSchedule res) =
      map Z.of_nat (seq 1 12 ++ anniversaries (Z.to_nat 30)) /\
    Z.of_nat (List.length (amortizationSchedule res)) = (30 + 11)%Z /\
    forall m : Z,
      (1 <= m <= 30 * 12)%Z ->
      retained (30 * 12) m = ((m <=? 12) || (m mod 12 =? 0))%Z%bool.
Proof.
  assert (H : (1 <= 30)%Z) by lia.
  split; [exact H|].
  exact (schedule_shape (ops := Float64.ops Float64.pow_ref)
           200000%float 6%float 30%Z H).
Defined.

End ScheduleShape.

(** ** binary64: order, [Math.min] *)

Module Float64Order.
Import Float64 Float64Facts.
Local Open Scope float_scope.

(** Comparing the other way round gives the opposite answer. *)
Lemma SFcompare_antisym (x y : spec_float) :
  SFcompare y x = option_map CompOpp (SFcompare x y).
Proof.
  destruct x as [sx|sx| |sx mx ex], y as [sy|sy| |sy my ey]; cbn;
    try reflexivity;
    try (destruct sx; reflexivity); try (destruct sy; reflexivity);
    try (destruct sx, sy; reflexivity).
  assert (Hm : Pos.compare_cont Eq my mx = CompOpp (Pos.compare_cont Eq mx my))
    by (symmetry; apply (Pos.compare_cont_antisym mx my Eq)).
  destruct sx, sy; cbn; try reflexivity;
    rewrite (Z.compare_antisym ex ey); destruct (ex ?= ey)%Z; cbn;
    try reflexivity; rewrite Hm; try reflexivity;
    now rewrite CompOpp_involutive.
Qed.

Lemma SFcompare_refl (x : spec_float) :
  x <> S754_nan -> SFcompare x x = Some Eq.
Proof.
  destruct x as [s|s| |s m e]; cbn; intros H; try reflexivity;
    try (destruct s; reflexivity); [congruence|].
  destruct s; rewrite Z.compare_refl, Pos.compare_cont_refl; reflexivity.
Qed.

Lemma leb_refl (x : float) : is_nan x = false -> (x <=? x) = true.
Proof.
  intros H. rewrite leb_spec. unfold SFleb.
  rewrite SFcompare_refl; [reflexivity|].
  intro E. apply is_nan_spec in E. congruence.
Qed.

Lemma ltb_leb (x y : float) : (x <? y) = true -> (x <=? y) = true.
Proof.
  rewrite ltb_spec, leb_spec. unfold SFltb, SFleb.
  destruct (SFcompare _ _) as [[]|]; congruence.
Qed.

(** Two numbers that are not NaN are comparable. *)
Lemma not_ltb_leb (x y : float) :
  is_nan x = false -> is_nan y = false ->
  (y <? x) = false -> (x <=? y) = true.
Proof.
  intros Hx Hy. rewrite ltb_spec, leb_spec. unfold SFltb, SFleb.
  rewrite (SFcompare_antisym (Prim2SF x) (Prim2SF y)).
  destruct (SFcompare (Prim2SF x) (Prim2SF y)) as [[]|] eqn:E; cbn;
    try congruence.
  exfalso. destruct (Prim2SF x) eqn:Ex, (Prim2SF y) eqn:Ey; cbn in E;
    try discriminate;
    try (apply is_nan_spec in Ex; congruence);
    try (apply is_nan_spec in Ey; congruence).
Qed.

Lemma is_zero_spec (x : float) :
  is_nan x = false -> is_zero x = true -> exists s, Prim2SF x = S754_zero s.
Proof.
  intros Hn Hz. unfold Prim2SF. rewrite Hn, Hz. eauto.
Qed.

(** [Math.min] of two numbers that are not NaN is one of them and is at
    most both. *)
Lemma Math_min_spec (x y : float) :
  is_nan x = false -> is_nan y = false ->
  (Math_min x y = x \/ Math_min x y = y) /\
  (Math_min x y <=? x) = true /\ (Math_min x y <=? y) = true.
Proof.
  intros Hx Hy. unfold Math_min. rewrite Hx, Hy. cbn [orb].
  destruct (is_pos_zero x && is_neg_zero y) eqn:Ez.
  - apply andb_true_iff in Ez. destruct Ez as [Zx Zy].
    unfold is_pos_zero, is_neg_zero in *.
    apply andb_true_iff in Zx, Zy. destruct Zx as [Zx _], Zy as [Zy _].
    destruct (is_zero_spec x Hx Zx) as [sx Ex].
    destruct (is_zero_spec y Hy Zy) as [sy Ey].
    split; [now right|]. split; [|now apply leb_refl].
    rewrite leb_spec, Ex, Ey. reflexivity.
  - destruct (y <? x) eqn:E.
    + split; [now right|]. split; [now apply ltb_leb|now apply leb_refl].
    + split; [now left|]. split; [now apply leb_refl|now apply not_ltb_leb].
Qed.

Lemma Math_min_nan (x y : float) :
  is_nan x = true \/ is_nan y = true -> is_nan (Math_min x y) = true.
Proof.
  intros H. unfold Math_min.
  destruct (is_nan x), (is_nan y); cbn [orb]; try reflexivity.
  destruct H; discriminate.
Qed.

End Float64Order.

Module HandlersFloat64.
Import Float64 Float64Facts Float64Order.
Local Open Scope float_scope.

(** X2. In binary64 [availableForHousing] respects both caps, whatever the
    request holds: it is NaN exactly when one of the two arguments of
    [Math.min] is NaN; otherwise it is one of the two arguments and is at
    most each of them. *)
Theorem available_within_caps (pow : float -> Z -> float)
    (body : Affordability.AffordabilityInputs (num := float)) :
  let monthlyIncome := Affordability.annualIncome body / of_Z 12 in
  let maxHousingPayment := monthlyIncome * of_Q (28 # 100) in
  let room := monthlyIncome * of_Q (36 # 100) - Affordability.monthlyDebts body in
  let available := Affordability.availableForHousing (ops := Float64.ops pow) body in
  (is_nan maxHousingPayment || is_nan room = true <-> is_nan available = true) /\
  (is_nan available = false ->
   (available = maxHousingPayment \/ available = room) /\
   (available <=? maxHousingPayment) = true /\
   (available <=? room) = true).
Proof.
  cbv zeta. unfold Affordability.availableForHousing, Affordability.monthlyIncome.
  cbn [Js.Math_min Js.mul Js.sub Js.div Js.of_Q Js.of_Z Float64.ops].
  set (a := Affordability.annualIncome body / of_Z 12 * of_Q (28 # 100)).
  set (b := Affordability.annualIncome body / of_Z 12 * of_Q (36 # 100)
            - Affordability.monthlyDebts body).
  destruct (is_nan a) eqn:Ha; [|destruct (is_nan b) eqn:Hb]; cbn [orb].
  - rewrite Math_min_nan by (now left). split; [tauto|discriminate].
  - rewrite Math_min_nan by (now right). split; [tauto|discriminate].
  - destruct (Math_min_spec a b Ha Hb) as [Hc [Hla Hlb]].
    assert (Hn : is_nan (Math_min a b) = false) by (destruct Hc as [-> | ->]; assumption).
    rewrite Hn. split; [split; discriminate|]. intros _. tauto.
Qed.

End HandlersFloat64.

(** ** The three handlers together *)

Module SharedFormula.

(** [/compare] computes the monthly payment of an option as [/calculate]
    does for the same amount, rate and term. *)
Lemma compare_payment_shared {num : Type} {ops : JsNumber num}
    (option : Compare.LoanOption (num := num)) :
  Compare.monthlyPayment (Compare.compare_option option)
  = Calculate.monthlyPayment
      (Calculate.calculate_results (Compare.amount option)
         (Compare.interestRate option) (Compare.term option)).
Proof.
  unfold Compare.compare_option, Calculate.calculate_results.
  cbn [Compare.monthlyPayment].
  destruct (strict_eq _ _); reflexivity.
Qed.

(** X3. The annuity formula is written out three times in the source; the
    three copies agree in every interpretation of the arithmetic:
    [/compare] reports for an option the monthly payment [/calculate]
    reports for its amount, rate and term, and the same total interest when
    the monthly rate is not zero; and the principal-and-interest
    [/affordability] reports is the monthly payment [/calculate] reports for
    a loan of [maxHomePrice - downPayment]. *)
Theorem handlers_share_payment {num : Type} {ops : JsNumber num}
    (option : Compare.LoanOption (num := num))
    (body : Affordability.AffordabilityInputs (num := num)) :
  let cmp := Compare.compare_option option in
  let calc := Calculate.calculate_results (Compare.amount option)
                (Compare.interestRate option) (Compare.term option) in
  let aff := Affordability.affordability_results body in
  let calc' := Calculate.calculate_results
                 (sub (Affordability.maxHomePrice aff)
                      (Affordability.downPayment body))
                 (Affordability.interestRate body)
                 (Affordability.loanTerm body) in
  Compare.monthlyPayment cmp = Calculate.monthlyPayment calc /\
  (strict_eq (div (div (Compare.interestRate option) (of_Z 100)) (of_Z 12))
             (of_Z 0) = false ->
   Compare.totalInterest cmp = Calculate.totalInterest calc) /\
  Affordability.principalAndInterest (Affordability.paymentBreakdown aff)
  = Calculate.monthlyPayment calc'.
Proof.
  cbv zeta. repeat split.
  - apply compare_payment_shared.
  - intros H. unfold Compare.compare_option, Calculate.calculate_results.
    cbn [Compare.totalInterest]. rewrite H. reflexivity.
  - unfold Affordability.affordability_results, Calculate.calculate_results,
      Affordability.monthlyInterestRate, Affordability.loanTermMonths.
    cbn [Affordability.paymentBreakdown Affordability.principalAndInterest
         Affordability.maxHomePrice].
    destruct (strict_eq _ _); reflexivity.
Qed.

Import Float64 Float64Facts.
Local Open Scope float_scope.

(** X4. With a rate of zero none of the three handlers consults
    [Math.pow]. *)
Theorem zero_rate_ignores_pow (pow1 pow2 : float -> Z -> float)
    (principal interestRate : float) (loanTerm : Z)
    (body : Affordability.AffordabilityInputs (num := float))
    (loanOptions : list (Compare.LoanOption (num := float))) :
  (interestRate =? 0) = true ->
  (Affordability.interestRate body =? 0) = true ->
  Forall (fun option => (Compare.interestRate option =? 0) = true) loanOptions ->
  Calculate.calculate (ops := Float64.ops pow1) principal interestRate loanTerm
  = Calculate.calculate (ops := Float64.ops pow2) principal interestRate loanTerm /\
  Affordability.affordability (ops := Float64.ops pow1) body
  = Affordability.affordability (ops := Float64.ops pow2) body /\
  Compare.compare (ops := Float64.ops pow1) loanOptions
  = Compare.compare (ops := Float64.ops pow2) loanOptions.
Proof.
  intros Hr Hb Ho. split; [|split].
  - apply CalculateFloat64.zero_rate_branch in Hr.
    unfold Calculate.calculate, Calculate.calculate_results.
    cbn [strict_eq div Js.of_Z Float64.ops]. rewrite Hr. reflexivity.
  - apply CalculateFloat64.zero_rate_branch in Hb.
    unfold Affordability.affordability, Affordability.affordability_results,
      Affordability.maxLoanAmount, Affordability.monthlyInterestRate.
    cbn [strict_eq div Js.of_Z Float64.ops]. rewrite Hb. reflexivity.
  - unfold Compare.compare. f_equal.
    induction Ho as [|o l Ho _ IH]; [reflexivity|].
    cbn [map]. f_equal; [|exact IH].
    apply CalculateFloat64.zero_rate_branch in Ho.
    unfold Compare.compare_option.
    cbn [strict_eq div Js.of_Z Float64.ops]. rewrite Ho. reflexivity.
Qed.

Lemma zero_rate_ignores_pow_witness :
  (0 =? 0) = true /\
  (Affordability.interestRate Inputs.zero_rate_body =? 0) = true /\
  Forall (fun option => (Compare.interestRate option =? 0) = true)
    [Scenarios.plain_option] /\
  (Calculate.calculate (ops := Float64.ops Float64.pow_ref) 200000 0 30
   = Calculate.calculate (ops := Float64.ops (fun _ _ => nan)) 200000 0 30 /\
   Affordability.affordability (ops := Float64.ops Float64.pow_ref)
     Inputs.zero_rate_body
   = Affordability.affordability (ops := Float64.ops (fun _ _ => nan))
       Inputs.zero_rate_body /\
   Compare.compare (ops := Float64.ops Float64.pow_ref) [Scenarios.plain_option]
   = Compare.compare (ops := Float64.ops (fun _ _ => nan))
       [Scenarios.plain_option]).
Proof.
  assert (H1 : (0 =? 0) = true) by reflexivity.
  assert (H2 : (Affordability.interestRate Inputs.zero_rate_body =? 0) = true)
    by reflexivity.
  assert (H3 : Forall (fun option => (Compare.interestRate option =? 0) = true)
                 [Scenarios.plain_option])
    by (constructor; [reflexivity|constructor]).
  split; [exact H1|]. split; [exact H2|]. split; [exact H3|].
  exact (zero_rate_ignores_pow Float64.pow_ref (fun _ _ => nan) 200000 0 30
           Inputs.zero_rate_body [Scenarios.plain_option] H1 H2 H3).
Defined.

End SharedFormula.

(** ** The month walk over the real numbers *)

Module WalkExact.
Import Calculate CalculateFacts CalculateExact Shapes.
Local Open Scope R_scope.

Local Abbreviation bal := (unclamped_balance (ops := Exact.ops)).
Local Abbreviation calc := (calculate_results (ops := Exact.ops)).
Local Abbreviation interest := (interest_of_month (ops := Exact.ops)).
Local Abbreviation portion := (principal_of_month (ops := Exact.ops)).
Local Abbreviation total := (sum_over_months (ops := Exact.ops)).

Lemma total_succ (f : nat -> R) (n : nat) :
  total f (S n) = total f n + f (S n).
Proof.
  unfold sum_over_months. rewrite seq_S, fold_left_app. reflexivity.
Qed.

(** What has been repaid and what has been paid in interest after [k]
    months, whatever the payment is. *)
Lemma repaid_after (mp r P : R) (k : nat) :
  total (portion mp r P) k = P - bal mp r P k /\
  total (interest mp r P) k = INR k * mp - (P - bal mp r P k).
Proof.
  induction k as [|k [IHp IHi]].
  - cbn. split; ring.
  - rewrite !total_succ, IHp, IHi, S_INR.
    unfold principal_of_month, interest_of_month.
    cbn [Nat.pred unclamped_balance add sub mul Exact.ops]. split; ring.
Qed.

Section ValidInputs.

Variables (principal interestRate : R) (loanTerm : Z).
Hypothesis principal_pos : 0 < principal.
Hypothesis rate_nonneg : 0 <= interestRate.
Hypothesis term_pos : (0 < loanTerm)%Z.

Let r : R := interestRate / 100 / 12.
Let n : nat := Z.to_nat (loanTerm * 12).
Let mp : R := Calculate.monthlyPayment (calc principal interestRate loanTerm).

(** Between the first and the last month the balance stays between the
    principal and zero. *)
Lemma balance_in_range (m : nat) :
  (m <= n)%nat -> 0 <= bal mp r principal m <= principal.
Proof.
  intros Hm.
  pose proof (term_months loanTerm term_pos) as [Hn Hn12]. fold n in Hn, Hn12.
  destruct (rate_cases interestRate rate_nonneg) as [H0 | Hr]; fold r in H0 || fold r in Hr.
  - unfold mp, r. rewrite (monthlyPayment_zero_rate principal interestRate loanTerm term_pos H0).
    fold r. fold n. rewrite H0, bal_zero_rate.
    assert (Hn0 : 0 < INR n) by (apply lt_0_INR; lia).
    assert (Hmn : INR m <= INR n) by (apply le_INR; exact Hm).
    assert (H0m : 0 <= INR m) by apply pos_INR.
    assert (Hq : INR m * (principal / INR n) = principal * (INR m / INR n))
      by (field; lra).
    rewrite Hq.
    assert (Hf : 0 <= INR m / INR n <= 1).
    { split.
      - apply Rmult_le_pos; [lra|]. left. now apply Rinv_0_lt_compat.
      - apply Rmult_le_reg_r with (INR n); [lra|]. unfold Rdiv.
        rewrite Rmult_assoc, Rinv_l; lra. }
    split; nra.
  - assert (Hdec : forall j k, bal mp r principal (k + j) <= bal mp r principal k).
    { induction j as [|j IH]; intro k.
      - rewrite Nat.add_0_r. lra.
      - replace (k + S j)%nat with (S (k + j)) by lia.
        destruct (balance_decreases principal interestRate loanTerm
                    principal_pos term_pos (k + j) Hr) as [_ Hd].
        fold r mp in Hd. specialize (IH k). lra. }
    split.
    + pose proof (Hdec (n - m)%nat m) as H.
      replace (m + (n - m))%nat with n in H by lia.
      unfold mp, r, n in *.
      rewrite (final_balance_zero principal interestRate loanTerm
                 rate_nonneg term_pos) in H. exact H.
    + apply (balance_decreases principal interestRate loanTerm
               principal_pos term_pos m Hr).
Qed.

End ValidInputs.



(** The interest portion of every month of the walk is positive at a
    positive rate. *)
Lemma interest_positive (principal interestRate : R) (loanTerm : Z) (m : nat) :
  0 < principal -> 0 < interestRate -> (0 < loanTerm)%Z ->
  (1 <= m <= Z.to_nat (loanTerm * 12))%nat ->
  0 < interest (Calculate.monthlyPayment (calc principal interestRate loanTerm))
        (interestRate / 100 / 12) principal m.
Proof.
  intros HP Hrate Hn Hm.
  assert (Hr : 0 < interestRate / 100 / 12) by lra.
  unfold interest_of_month. cbn [mul Exact.ops].
  apply Rmult_lt_0_compat; [|exact Hr].
  destruct m as [|k]; [lia|]. cbn [Nat.pred].
  destruct (balance_decreases principal interestRate loanTerm HP Hn k Hr)
    as [_ Hd].
  pose proof (balance_in_range principal interestRate loanTerm HP
                (Rlt_le _ _ Hrate) Hn (S k) (proj2 Hm)) as Hb.
  lra.
Qed.

Lemma total_positive (f : nat -> R) (k : nat) :
  (1 <= k)%nat -> (forall m, (1 <= m <= k)%nat -> 0 < f m) -> 0 < total f k.
Proof.
  intros Hk Hf.
  assert (H : forall j, (j <= k)%nat ->
                0 <= total f j /\ ((1 <= j)%nat -> 0 < total f j)).
  { induction j as [|j IH]; intro Hj.
    - split; [cbn; lra|lia].
    - rewrite total_succ. destruct IH as [IH _]; [lia|].
      assert (0 < f (S j)) by (apply Hf; lia).
      split; [|intros _]; lra. }
  apply H; lia.
Qed.

(** The totals of the walk, on the results of the handler. *)
Lemma walk_totals (principal interestRate : R) (loanTerm : Z) :
  0 < principal -> 0 <= interestRate -> (0 < loanTerm)%Z ->
  let res := calc principal interestRate loanTerm in
  let mp := Calculate.monthlyPayment res in
  let r := interestRate / 100 / 12 in
  let n := Z.to_nat (loanTerm * 12) in
  total (portion mp r principal) n = principal /\
  total (interest mp r principal) n = totalInterest res /\
  totalPayment res = principal + totalInterest res /\
  totalPayment res = INR n * mp /\
  (0 < interestRate -> 0 < totalInterest res).
Proof.
  intros HP Hr Hn. cbv zeta.
  destruct (repaid_after
              (Calculate.monthlyPayment (calc principal interestRate loanTerm))
              (interestRate / 100 / 12) principal (Z.to_nat (loanTerm * 12)))
    as [Hp Hi].
  rewrite (final_balance_zero principal interestRate loanTerm Hr Hn) in Hp, Hi.
  rewrite Rminus_0_r in Hp, Hi.
  pose proof (term_months loanTerm Hn) as [HnR Hn12].
  assert (Hn0 : INR (Z.to_nat (loanTerm * 12)) <> 0) by (apply not_0_INR; lia).
  assert (Htot : totalInterest (calc principal interestRate loanTerm)
                 = INR (Z.to_nat (loanTerm * 12))
                   * Calculate.monthlyPayment (calc principal interestRate loanTerm)
                   - principal
                 /\ totalPayment (calc principal interestRate loanTerm)
                    = INR (Z.to_nat (loanTerm * 12))
                      * Calculate.monthlyPayment (calc principal interestRate loanTerm)).
  { unfold calculate_results. cbn [strict_eq div Js.of_Z Exact.ops].
    destruct (Exact.strict_eq (interestRate / 100 / 12) 0) eqn:E;
      cbn [Calculate.monthlyPayment totalPayment totalInterest
           mul sub div Js.of_Z Exact.ops]; rewrite HnR.
    - split; field; exact Hn0.
    - split; ring. }
  destruct Htot as [HtI HtP].
  split; [exact Hp|]. split; [rewrite Hi, HtI; reflexivity|].
  split; [rewrite HtP, HtI; ring|]. split; [exact HtP|].
  intros Hpos. rewrite <- HtI in Hi. rewrite <- Hi.
  apply total_positive; [lia|]. intros m Hm.
  now apply interest_positive.
Qed.



End WalkExact.

(** ** [/compare]: order and cost *)

Module CompareMore.
Import Compare Scenarios Inputs.


Local Open Scope R_scope.



End CompareMore.

(** ** [/affordability] over the real numbers *)

Module AffordabilityMore.
Import Affordability Scenarios Inputs AffordabilityClaims.
Local Open Scope R_scope.

Local Abbreviation affR := (affordability (ops := Exact.ops)).
Local Abbreviation resR := (affordability_results (ops := Exact.ops)).
Local Abbreviation availR := (availableForHousing (ops := Exact.ops)).
Local Abbreviation incomeR := (monthlyIncome (ops := Exact.ops)).

Lemma available_caps (body : AffordabilityInputs (num := R)) :
  availR body <= incomeR body * 0.28 /\
  availR body <= incomeR body * 0.36 - monthlyDebts body /\
  (availR body = incomeR body * 0.28 \/
   availR body = incomeR body * 0.36 - monthlyDebts body).
Proof.
  unfold availableForHousing.
  cbn [Math_min mul sub Js.of_Q Exact.ops].
  replace (Q2R (28 # 100)) with 0.28 by (unfold Q2R; cbn [Qnum Qden]; lra).
  replace (Q2R (36 # 100)) with 0.36 by (unfold Q2R; cbn [Qnum Qden]; lra).
  split; [apply Rmin_l|]. split; [apply Rmin_r|].
  unfold Rmin. destruct (Rle_dec _ _); [left|right]; reflexivity.
Qed.

Lemma income_pos (body : AffordabilityInputs (num := R)) :
  valid_body body -> 0 < incomeR body.
Proof.
  intros (Hi & _). unfold monthlyIncome. cbn [div Js.of_Z Exact.ops]. lra.
Qed.

Lemma ratio_formula (body : AffordabilityInputs (num := R)) :
  debtToIncomeRatio (resR body)
  = (Affordability.monthlyPayment (resR body) + monthlyDebts body)
    / incomeR body * 100.
Proof. reflexivity. Qed.

(** The annuity branch. *)
Lemma annuity_branch_exact (body : AffordabilityInputs (num := R)) :
  valid_body body ->
  0 < interestRate body ->
  Affordability.monthlyPayment (resR body)
  = availR body + downPayment body * monthly_charges body /\
  debtToIncomeRatio (resR body)
  = (availR body + downPayment body * monthly_charges body + monthlyDebts body)
    / incomeR body * 100 /\
  debtToIncomeRatio (resR body)
  <= 36 + downPayment body * monthly_charges body / incomeR body * 100.
Proof.
  intros Hv Hrate.
  pose proof (monthly_payment_exact body Hv Hrate) as Hm.
  fold (monthly_charges body) in Hm.
  pose proof (income_pos body Hv) as Hi.
  pose proof (available_caps body) as (_ & Hcap & _).
  split; [exact Hm|]. rewrite ratio_formula, Hm. split; [reflexivity|].
  assert (Hinv : 0 < / incomeR body) by (now apply Rinv_0_lt_compat).
  assert (Hone : incomeR body * / incomeR body = 1) by (apply Rinv_r; lra).
  unfold Rdiv.
  set (a := availR body) in *. set (d := downPayment body * monthly_charges body).
  set (i := incomeR body) in *. set (v := / i) in *.
  assert (H1 : (a + monthlyDebts body) * v <= 0.36).
  { replace 0.36 with ((i * 0.36) * v) by (rewrite (Rmult_comm i), Rmult_assoc, Hone; ring).
    apply Rmult_le_compat_r; lra. }
  nra.
Qed.

(** The zero-rate branch. *)
Lemma zero_branch_exact (body : AffordabilityInputs (num := R)) :
  valid_body body ->
  interestRate body = 0 ->
  maxLoanAmount (ops := Exact.ops) body
  = availR body * IZR (loanTermMonths body) /\
  principalAndInterest (paymentBreakdown (resR body)) = availR body /\
  Affordability.monthlyPayment (resR body)
  = availR body + maxHomePrice (resR body) * monthly_charges body.
Proof.
  intros Hv H0.
  pose proof (affordability_term_months body Hv) as [HnR Hn12].
  assert (Hn0 : IZR (loanTermMonths body) <> 0)
    by (rewrite HnR; apply not_0_INR; lia).
  assert (Hr : Exact.strict_eq (monthlyInterestRate (ops := Exact.ops) body) 0
               = true).
  { apply CalculateExact.strict_eq_true. unfold monthlyInterestRate.
    cbn [div Js.of_Z Exact.ops]. rewrite H0. lra. }
  assert (Hl : maxLoanAmount (ops := Exact.ops) body
               = availR body * IZR (loanTermMonths body)).
  { unfold maxLoanAmount. cbn [strict_eq mul Js.of_Z Exact.ops].
    now rewrite Hr. }
  split; [exact Hl|].
  unfold affordability_results, monthly_charges.
  cbn [paymentBreakdown principalAndInterest Affordability.monthlyPayment
       maxHomePrice strict_eq add sub mul div Js.of_Z Exact.ops].
  rewrite Hr, Hl. split; field; exact Hn0.
Qed.

(** The principal-and-interest of the annuity branch: the loan amount times
    the annuity factor. *)
Lemma annuity_principal_and_interest (body : AffordabilityInputs (num := R)) :
  valid_body body ->
  0 < interestRate body ->
  let r := monthlyInterestRate (ops := Exact.ops) body in
  let w := powerRZ (1 + r) (loanTermMonths body) in
  let k := r * w / (w - 1) in
  0 < k /\
  maxLoanAmount (ops := Exact.ops) body = availR body / (k + monthly_charges body) /\
  principalAndInterest (paymentBreakdown (resR body))
  = availR body * (k / (k + monthly_charges body)).
Proof.
  intros Hv Hrate. cbv zeta.
  assert (Hr : 0 < monthlyInterestRate (ops := Exact.ops) body).
  { unfold monthlyInterestRate. cbn [div Js.of_Z Exact.ops]. lra. }
  pose proof (annuity_factor_pos body Hv Hr) as Hk.
  pose proof (affordability_growth_gt_1 body Hv Hr) as Hw.
  destruct Hv as (_ & _ & _ & _ & _ & Ht & Hi).
  assert (Hc : 0 <= monthly_charges body) by (unfold monthly_charges; lra).
  assert (Hl : maxLoanAmount (ops := Exact.ops) body
               = availR body
                 / (monthlyInterestRate (ops := Exact.ops) body
                    * powerRZ (1 + monthlyInterestRate (ops := Exact.ops) body)
                        (loanTermMonths body)
                    / (powerRZ (1 + monthlyInterestRate (ops := Exact.ops) body)
                         (loanTermMonths body) - 1)
                    + monthly_charges body)).
  { unfold maxLoanAmount, monthly_charges.
    cbn [strict_eq add sub mul div Math_pow Js.of_Z Exact.ops].
    rewrite (proj2 (CalculateExact.strict_eq_false _ 0)) by lra.
    f_equal. ring. }
  split; [exact Hk|]. split; [exact Hl|].
  unfold affordability_results.
  cbn [paymentBreakdown principalAndInterest
       strict_eq add sub mul div Math_pow Js.of_Z Exact.ops].
  rewrite (proj2 (CalculateExact.strict_eq_false _ 0)) by lra.
  rewrite Hl.
  set (r := monthlyInterestRate body) in *.
  set (w := powerRZ (1 + r) (loanTermMonths body)) in *.
  set (c := monthly_charges body) in *.
  assert (Hrw : 0 < r * w) by (apply Rmult_lt_0_compat; lra).
  assert (Hkc : 0 < r * w / (w - 1) + c) by lra.
  field. split; [lra|].
  intro E. apply (Rlt_irrefl 0). rewrite <- E at 2.
  replace (r * w + c * (w - 1)) with ((r * w / (w - 1) + c) * (w - 1))
    by (field; lra).
  apply Rmult_lt_0_compat; lra.
Qed.

(** Debts within the back-end cap. *)
Lemma within_cap_exact (body : AffordabilityInputs (num := R)) :
  valid_body body ->
  within_cap body ->
  0 <= availR body <= 0.28 * (annualIncome body / 12) /\
  0 <= maxLoanAmount (ops := Exact.ops) body /\
  downPayment body <= maxHomePrice (resR body) /\
  0 <= principalAndInterest (paymentBreakdown (resR body)) <= availR body /\
  0 <= taxes (paymentBreakdown (resR body)) /\
  0 <= insurance (paymentBreakdown (resR body)).
Proof.
  intros Hv Hd. unfold within_cap in Hd.
  pose proof (income_pos body Hv) as Hi.
  pose proof (available_caps body) as (Hc1 & Hc2 & Hc3).
  assert (Hinc : incomeR body = annualIncome body / 12) by reflexivity.
  assert (Ha : 0 <= availR body <= 0.28 * (annualIncome body / 12)).
  { rewrite <- Hinc in *. split; [|lra]. destruct Hc3 as [-> | ->]; lra. }
  pose proof Hv as (_ & _ & Hdp & Hr & Hn & Ht & Hin).
  assert (Hc : 0 <= monthly_charges body) by (unfold monthly_charges; lra).
  assert (Hmain : 0 <= maxLoanAmount (ops := Exact.ops) body /\
                  0 <= principalAndInterest (paymentBreakdown (resR body))
                    <= availR body).
  { destruct Hr as [Hr | Hr].
    - destruct (annuity_principal_and_interest body Hv Hr) as (Hk & Hl & Hp).
      cbv zeta in *. rewrite Hl, Hp.
      set (k := monthlyInterestRate body
                * powerRZ (1 + monthlyInterestRate body) (loanTermMonths body)
                / (powerRZ (1 + monthlyInterestRate body) (loanTermMonths body) - 1)) in *.
      assert (Hkc : 0 < k + monthly_charges body) by lra.
      assert (Hinv : 0 < / (k + monthly_charges body))
        by (now apply Rinv_0_lt_compat).
      assert (Hf : 0 <= k / (k + monthly_charges body) <= 1).
      { split; [apply Rmult_le_pos; lra|].
        apply Rmult_le_reg_r with (k + monthly_charges body); [lra|].
        unfold Rdiv. rewrite Rmult_assoc, Rinv_l; lra. }
      split; [apply Rmult_le_pos; lra|]. split; nra.
    - destruct (zero_branch_exact body Hv (eq_sym Hr)) as (Hl & Hp & _).
      rewrite Hl, Hp.
      pose proof (affordability_term_months body Hv) as [-> Hn12].
      assert (0 < INR (Z.to_nat (loanTermMonths body))) by (apply lt_0_INR; lia).
      split; [apply Rmult_le_pos; lra|lra]. }
  destruct Hmain as [Hl Hp].
  assert (Hprice : maxHomePrice (resR body)
                   = maxLoanAmount (ops := Exact.ops) body + downPayment body)
    by reflexivity.
  assert (Htax : taxes (paymentBreakdown (resR body))
                 = maxHomePrice (resR body) * propertyTaxRate body / 100 / 12)
    by reflexivity.
  assert (Hins : insurance (paymentBreakdown (resR body))
                 = maxHomePrice (resR body) * insuranceRate body / 100 / 12)
    by reflexivity.
  split; [exact Ha|]. split; [exact Hl|]. split; [lra|]. split; [exact Hp|].
  assert (0 <= maxHomePrice (resR body)) by lra.
  rewrite Htax, Hins.
  split; unfold Rdiv; repeat apply Rmult_le_pos; lra.
Qed.







End AffordabilityMore.

(** ** The [validate] middleware *)

Module ValidationFacts.
Import Validation.

Lemma get_set_own (o : JsObject) (key value k : string) :
  get (set_own o key value) k
  = if String.eqb key k then Some value else get o k.
Proof.
  induction o as [|[k' v'] rest IH]; cbn [set_own get].
  - destruct (String.eqb key k); reflexivity.
  - destruct (String.eqb k' key) eqn:E; cbn [get].
    + apply String.eqb_eq in E. subst k'.
      destruct (String.eqb key k); reflexivity.
    + rewrite IH. destruct (String.eqb k' k) eqn:E'; [|reflexivity].
      apply String.eqb_eq in E'. subst k'.
      now rewrite String.eqb_sym, E.
Qed.

Lemma keys_set_own (o : JsObject) (key value : string) :
  map fst (set_own o key value)
  = if existsb (String.eqb key) (map fst o) then map fst o
    else map fst o ++ [key].
Proof.
  induction o as [|[k' v'] rest IH]; cbn [set_own map fst existsb app];
    [reflexivity|].
  rewrite (String.eqb_sym key k').
  destruct (String.eqb k' key) eqn:E; cbn [map fst orb]; [reflexivity|].
  rewrite IH. destruct (existsb _ _); reflexivity.
Qed.

Lemma NoDup_snoc (l : list string) (key : string) :
  NoDup l -> ~ In key l -> NoDup (l ++ [key]).
Proof.
  intros Hl Hk. induction Hl as [|x l Hx Hl IH]; cbn [app].
  - constructor; [intros []|constructor].
  - constructor.
    + rewrite in_app_iff. intros [H | [H | []]]; [now apply Hx|].
      subst x. apply Hk. now left.
    + apply IH. intro H. apply Hk. now right.
Qed.

Lemma keys_assign (o : JsObject) (key value : string) :
  NoDup (map fst o) -> ~ In "__proto__"%string (map fst o) ->
  NoDup (map fst (assign o key value)) /\
  ~ In "__proto__"%string (map fst (assign o key value)) /\
  (forall k, In k (map fst (assign o key value)) <->
             In k (map fst o) \/ (k = key /\ key <> "__proto__"%string)).
Proof.
  intros Hnd Hp. unfold assign.
  destruct (String.eqb key "__proto__") eqn:E.
  - apply String.eqb_eq in E. subst key.
    split; [exact Hnd|]. split; [exact Hp|].
    intro k. split; [now left|]. intros [H | [_ H]]; [exact H|congruence].
  - apply String.eqb_neq in E. rewrite keys_set_own.
    destruct (existsb (String.eqb key) (map fst o)) eqn:Ex.
    + apply existsb_exists in Ex. destruct Ex as [x [Hx Hkx]].
      apply String.eqb_eq in Hkx. subst x.
      split; [exact Hnd|]. split; [exact Hp|].
      intro k. split; [now left|]. intros [H | [-> _]]; assumption.
    + assert (Hk : ~ In key (map fst o)).
      { intro H.
        assert (existsb (String.eqb key) (map fst o) = true)
          by (apply existsb_exists; exists key; split;
              [exact H|apply String.eqb_refl]).
        congruence. }
      split; [now apply NoDup_snoc|]. split.
      * rewrite in_app_iff. intros [H | [H | []]]; [now apply Hp|congruence].
      * intro k. rewrite in_app_iff. cbn [In]. split.
        -- intros [H | [H | []]]; [now left|right; now split].
        -- intros [H | [-> _]]; [now left|right; now left].
Qed.

Lemma get_assign (o : JsObject) (key value k : string) :
  k <> "__proto__"%string ->
  get (assign o key value) k
  = if String.eqb key k then Some value else get o k.
Proof.
  intro Hk. unfold assign. destruct (String.eqb key "__proto__") eqn:E.
  - apply String.eqb_eq in E. subst key.
    destruct (String.eqb "__proto__" k) eqn:E'; [|reflexivity].
    apply String.eqb_eq in E'. congruence.
  - apply get_set_own.
Qed.

Lemma get_None (o : JsObject) (k : string) :
  ~ In k (map fst o) -> get o k = None.
Proof.
  induction o as [|[k' v'] rest IH]; cbn [get map fst In]; [reflexivity|].
  intro H. destruct (String.eqb k' k) eqn:E.
  - apply String.eqb_eq in E. subst k'. exfalso. apply H. now left.
  - apply IH. intro H'. apply H. now right.
Qed.

Lemma find_snoc (f : Joi.Detail -> bool) (l : list Joi.Detail)
    (d : Joi.Detail) :
  find f (l ++ [d])
  = match find f l with
    | Some x => Some x
    | None => if f d then Some d else None
    end.
Proof.
  induction l as [|x l IH]; cbn [app find]; [reflexivity|].
  destruct (f x); [reflexivity|exact IH].
Qed.

(** The loop, from any object it has reached. *)
Lemma format_errors_from (details : list Joi.Detail) (o : JsObject) :
  let step := fun errors detail =>
                assign errors (join_path (Joi.path detail))
                       (Joi.message detail) in
  NoDup (map fst o) -> ~ In "__proto__"%string (map fst o) ->
  NoDup (map fst (fold_left step details o)) /\
  ~ In "__proto__"%string (map fst (fold_left step details o)) /\
  (forall k, In k (map fst (fold_left step details o)) <->
             In k (map fst o) \/
             (k <> "__proto__"%string /\
              In k (map (fun d => join_path (Joi.path d)) details))) /\
  (forall k, k <> "__proto__"%string ->
             get (fold_left step details o) k
             = match last_message details k with
               | Some m => Some m
               | None => get o k
               end).
Proof.
  cbv zeta. revert o.
  induction details as [|d ds IH]; intros o Hnd Hp; cbn [fold_left].
  - split; [exact Hnd|]. split; [exact Hp|]. split; [|reflexivity].
    intro k. split; [now left|]. intros [H | [_ []]]. exact H.
  - destruct (keys_assign o (join_path (Joi.path d)) (Joi.message d) Hnd Hp)
      as (Hnd' & Hp' & Hkeys).
    destruct (IH _ Hnd' Hp') as (H1 & H2 & H3 & H4).
    split; [exact H1|]. split; [exact H2|]. split.
    + intro k. rewrite H3, Hkeys. cbn [map In]. split.
      * intros [[H | [-> Hne]] | [Hne H]].
        -- now left.
        -- right. split; [exact Hne|now left].
        -- right. split; [exact Hne|now right].
      * intros [H | [Hne [H | H]]].
        -- left. now left.
        -- left. right. subst k. now split.
        -- right. now split.
    + intros k Hk. rewrite (H4 k Hk). unfold last_message. cbn [rev].
      rewrite find_snoc.
      destruct (find _ (rev ds)) as [d'|]; [reflexivity|].
      rewrite (get_assign _ _ _ _ Hk).
      destruct (String.eqb (join_path (Joi.path d)) k); reflexivity.
Qed.

(** X12. [validate] calls [next] exactly when the schema reports no error.
    Otherwise it answers 400 with [success: false], the message
    [Validation failed] and an [errors] object whose keys are the joined
    paths of the details and which holds, for every key, the message of the
    LAST detail with that path: when several details share a path only the
    last message is reported.  A path that joins to [__proto__] leaves no
    key. *)
Theorem validate_reports_last_message (Value : Type)
    (schema : Value -> option (list Joi.Detail))
    (property : string) (req : string -> Value) :
  match schema (req property) with
  | None => validate Value schema property req = Next
  | Some details =>
      exists errors,
        validate Value schema property req
        = Respond 400 {| success := false;
                         message := "Validation failed";
                         errors := errors |} /\
        NoDup (map fst errors) /\
        (forall key,
            In key (map fst errors) <->
            key <> "__proto__"%string /\
            In key (map (fun d => join_path (Joi.path d)) details)) /\
        (forall key, key <> "__proto__"%string ->
                     get errors key = last_message details key) /\
        get errors "__proto__" = None
  end.
Proof.
  unfold validate. destruct (schema (req property)) as [details|];
    [|reflexivity].
  exists (format_errors details). split; [reflexivity|].
  destruct (format_errors_from details [] (NoDup_nil _) (fun H => H))
    as (H1 & H2 & H3 & H4).
  fold (format_errors details) in H1, H2, H3, H4.
  split; [exact H1|]. split; [|split].
  - intro k. rewrite H3. cbn [map In]. tauto.
  - intros k Hk. rewrite (H4 k Hk).
    destruct (last_message details k); reflexivity.
  - now apply get_None.
Qed.

End ValidationFacts.
